(** * MP Waste Dashboard: the district callback of [main.py]

    A shallow embedding of [safe] and [update_dashboard] (main.py) and of the
    values they compute: the coerced attributes of the selected district, the
    population forecast, the waste ratios and the vehicle integer program
    that is handed to PuLP.

    - Numbers.  In the callback a Python [float] is modelled by [pyfloat]:
      a real number, an infinity or NaN.  Finite arithmetic is exact real
      arithmetic (no rounding, one zero, no overflow in an operation); the
      non-finite values follow IEEE 754 and CPython.  Conversions into
      floats ([float(str)], [float(int)]) overflow and underflow where
      binary64 does.
    - The waste ratios are embedded a second time, over the binary64 floats
      themselves (module [Binary64]), where rounding is what IEEE 754 says.
    - Strings are sequences of code points below 256; [str.lower],
      [str.strip] and the whitespace of [float(str)] are those of CPython on
      that range.
    - Effects.  A computation returns, raises, or calls the MILP solver; the
      solver is a parameter of a run.  A solver run that itself fails, and
      the checks PuLP makes on the numbers of a constraint, are not
      modelled.
    - The global data frame [df] is a parameter of [update_dashboard]: the
      rows that line 38 has kept, with the district column held as Python
      objects.  The figures and HTML components are kept as the values they
      display. *)

From Stdlib Require Import Floats.
From Stdlib Require Import Reals Lra Lia ZArith List String Ascii Bool Wf_nat Classical_Prop.
From stdpp Require Import gmap strings.

Import ListNotations.
Local Open Scope string_scope.

(** ** Python strings: [str.lower], [str.strip] *)

Module Str.

(** [c.isspace()] below 256: TAB..CR, FS..US, the space, NEL (133) and the
    no-break space (160). *)
Definition isspace (c : ascii) : bool :=
  let n := nat_of_ascii c in
  ((9 <=? n)%nat && (n <=? 13)%nat) || ((28 <=? n)%nat && (n <=? 32)%nat) ||
  (n =? 133)%nat || (n =? 160)%nat.

(** [c.isupper()] below 256: A..Z and the capital letters 192..222 but the
    multiplication sign (215). *)
Definition isupper (c : ascii) : bool :=
  let n := nat_of_ascii c in
  ((65 <=? n)%nat && (n <=? 90)%nat) ||
  ((192 <=? n)%nat && (n <=? 222)%nat && negb (n =? 215)%nat).

(** [c.lower()]: every capital letter below 256 has its small letter 32
    places further. *)
Definition lower_char (c : ascii) : ascii :=
  if isupper c then ascii_of_nat (nat_of_ascii c + 32) else c.

Fixpoint lstrip_chars (s : list ascii) : list ascii :=
  match s with
  | c :: s' => if isspace c then lstrip_chars s' else s
  | [] => []
  end.

Definition strip_chars (s : list ascii) : list ascii :=
  rev (lstrip_chars (rev (lstrip_chars s))).

(** [s.lower()] *)
Definition lower (s : string) : string :=
  string_of_list_ascii (map lower_char (list_ascii_of_string s)).

(** [s.strip()] *)
Definition strip (s : string) : string :=
  string_of_list_ascii (strip_chars (list_ascii_of_string s)).

End Str.

(** ** Python floats *)

Inductive pyfloat : Type :=
| Fin (r : R)
| Inf (negative : bool)
| NaN.

(** The numbers that reach the forecast: a float, or a complex number (the
    result of a negative float raised to a fractional power).  Only the kind
    of a complex value is kept: every use of one in [update_dashboard] ends
    in [round], which rejects the type. *)
Inductive pynum : Type :=
| PFloat (x : pyfloat)
| PComplex.

Inductive exn : Type :=
| ValueError | TypeError | IndexError | ZeroDivisionError | OverflowError | AttributeError.

(** ** The PuLP model that [update_dashboard] builds *)

Module pl.

Inductive LpCategory := LpContinuous | LpInteger.

(** [pl.LpVariable(name, lowBound=..., cat=...)]; no upper bound is given
    anywhere in main.py. *)
Record LpVariable := {
  name : string;
  lowBound : option R;
  cat : LpCategory
}.

(** A sum of [coefficient * variable] terms. *)
Definition LpAffineExpression := list (R * LpVariable).

Inductive LpSense := LpMinimize | LpMaximize.

(** [expr >= rhs]; main.py writes no other comparison. *)
Record LpConstraint := {
  lhs : LpAffineExpression;
  rhs : pyfloat
}.

Record LpProblem := {
  prob_name : string;
  sense : LpSense;
  objective : option (LpAffineExpression * string);
  constraints : list (LpConstraint * string)
}.

(** [pl.LpProblem(name, sense)] *)
Definition new (n : string) (s : LpSense) : LpProblem :=
  {| prob_name := n; sense := s; objective := None; constraints := [] |}.

(** [problem += expr, name] with an affine expression: sets the objective. *)
Definition add_objective (p : LpProblem) (e : LpAffineExpression) (n : string) : LpProblem :=
  {| prob_name := prob_name p; sense := sense p;
     objective := Some (e, n); constraints := constraints p |}.

(** [problem += constraint, name] *)
Definition add_constraint (p : LpProblem) (c : LpConstraint) (n : string) : LpProblem :=
  {| prob_name := prob_name p; sense := sense p;
     objective := objective p; constraints := constraints p ++ [(c, n)] |}.

(** What [problem.solve()] leaves behind: the [varValue] of each variable,
    by name ([None] when the solver assigned nothing). *)
Definition LpSolution := string -> option R.

(** [pl.value(x)] *)
Definition value (sol : LpSolution) (x : LpVariable) : option R := sol (name x).

End pl.

(** ** Execution: exceptions and the call to the solver

    [problem.solve()] runs an external MILP solver.  A computation is a tree
    that returns, raises, or submits a problem to the solver and continues
    with the solution it gets back. *)

Inductive Exec (A : Type) : Type :=
| Ret (a : A)
| Raise (e : exn)
| Solve (p : pl.LpProblem) (k : pl.LpSolution -> Exec A).

Arguments Ret {A} a.
Arguments Raise {A} e.
Arguments Solve {A} p k.

Fixpoint bind {A B : Type} (m : Exec A) (f : A -> Exec B) : Exec B :=
  match m with
  | Ret a => f a
  | Raise e => Raise e
  | Solve p k => Solve p (fun sol => bind (k sol) f)
  end.

Declare Scope exec_scope.
Delimit Scope exec_scope with exec.
Notation "x <- m ;; k" := (bind m (fun x => k))
  (at level 100, m at next level, right associativity) : exec_scope.
Local Open Scope exec_scope.

(** The outcome of a run: a value or an uncaught exception. *)
Inductive outcome (A : Type) : Type :=
| Returned (a : A)
| Raised (e : exn).

Arguments Returned {A} a.
Arguments Raised {A} e.

(** Running a computation against a solver. *)
Fixpoint run {A : Type} (solver : pl.LpProblem -> pl.LpSolution) (m : Exec A) : outcome A :=
  match m with
  | Ret a => Returned a
  | Raise e => Raised e
  | Solve p k => run solver (k (solver p))
  end.

(** The problems submitted to the solver during a run, in order. *)
Fixpoint solver_calls {A : Type} (solver : pl.LpProblem -> pl.LpSolution) (m : Exec A)
  : list pl.LpProblem :=
  match m with
  | Ret _ => []
  | Raise _ => []
  | Solve p k => p :: solver_calls solver (k (solver p))
  end.

(** A list comprehension whose element expression may raise. *)
Fixpoint map_exec {A B : Type} (f : A -> Exec B) (l : list A) : Exec (list B) :=
  match l with
  | [] => Ret []
  | a :: l' => b <- f a ;; bs <- map_exec f l' ;; Ret (b :: bs)
  end.

(** ** Float arithmetic *)

Definition Rltb (x y : R) : bool := if Rlt_dec x y then true else false.
Definition Reqb (x y : R) : bool := if Req_dec_T x y then true else false.

(** [a < b]; every comparison with NaN is false. *)
Definition float_lt (a b : pyfloat) : bool :=
  match a, b with
  | Fin x, Fin y => Rltb x y
  | Fin _, Inf false => true
  | Inf true, Fin _ => true
  | Inf true, Inf false => true
  | _, _ => false
  end.

(** [a > b] *)
Definition float_gt (a b : pyfloat) : bool := float_lt b a.

Definition float_neg (a : pyfloat) : pyfloat :=
  match a with
  | Fin x => Fin (- x)
  | Inf s => Inf (negb s)
  | NaN => NaN
  end.

Definition float_add (a b : pyfloat) : pyfloat :=
  match a, b with
  | Fin x, Fin y => Fin (x + y)
  | Fin _, Inf s => Inf s
  | Inf s, Fin _ => Inf s
  | Inf s, Inf t => if Bool.eqb s t then Inf s else NaN
  | _, _ => NaN
  end.

Definition float_sub (a b : pyfloat) : pyfloat := float_add a (float_neg b).

Definition float_mul (a b : pyfloat) : pyfloat :=
  match a, b with
  | Fin x, Fin y => Fin (x * y)
  | Fin x, Inf s => if Reqb x 0 then NaN else Inf (xorb s (Rltb x 0))
  | Inf s, Fin y => if Reqb y 0 then NaN else Inf (xorb s (Rltb y 0))
  | Inf s, Inf t => Inf (xorb s t)
  | _, _ => NaN
  end.

(** [a / b]: Python raises on a zero divisor instead of returning a
    non-finite quotient. *)
Definition float_div (a b : pyfloat) : Exec pyfloat :=
  match b with
  | Fin y =>
      if Reqb y 0 then Raise ZeroDivisionError
      else match a with
           | Fin x => Ret (Fin (x / y))
           | Inf s => Ret (Inf (xorb s (Rltb y 0)))
           | NaN => Ret NaN
           end
  | Inf _ => match a with
             | Fin _ => Ret (Fin 0)
             | _ => Ret NaN
             end
  | NaN => Ret NaN
  end.

(** The builtin [min(a, b)]: the second argument replaces the first only
    when it compares smaller. *)
Definition py_min (a b : pyfloat) : pyfloat := if float_lt b a then b else a.

Definition float_abs (a : pyfloat) : pyfloat :=
  match a with
  | Fin x => Fin (Rabs x)
  | Inf _ => Inf false
  | NaN => NaN
  end.

(** [floor] of a real, and the tests CPython's [float_pow] makes on the
    exponent. *)
Definition Rfloor (r : R) : Z := Int_part r.
Definition is_integer (w : R) : bool := Reqb w (IZR (Rfloor w)).
Definition is_odd_integer (w : R) : bool := is_integer w && Z.odd (Rfloor w).

(** [v ** w] on floats, case by case as CPython's [float_pow] decides it
    (the final case is the C library's [pow] on a positive base). *)
Definition float_pow (v w : pyfloat) : Exec pynum :=
  match w with
  | Fin w0 =>
      if Reqb w0 0 then Ret (PFloat (Fin 1))
      else
        match v with
        | NaN => Ret (PFloat NaN)
        | Inf s =>
            if Rltb 0 w0
            then Ret (PFloat (if is_odd_integer w0 then Inf s else Inf false))
            else Ret (PFloat (Fin 0))
        | Fin v0 =>
            if Reqb v0 0 then
              if Rltb w0 0 then Raise ZeroDivisionError else Ret (PFloat (Fin 0))
            else if Rltb v0 0 then
              if is_integer w0 then
                if Reqb (- v0) 1
                then Ret (PFloat (Fin (if is_odd_integer w0 then -1 else 1)))
                else Ret (PFloat (Fin (if is_odd_integer w0
                                       then - Rpower (- v0) w0
                                       else Rpower (- v0) w0)))
              else Ret PComplex
            else if Reqb v0 1 then Ret (PFloat (Fin 1))
            else Ret (PFloat (Fin (Rpower v0 w0)))
        end
  | NaN =>
      match v with
      | NaN => Ret (PFloat NaN)
      | Fin v0 => Ret (PFloat (if Reqb v0 1 then Fin 1 else NaN))
      | Inf _ => Ret (PFloat NaN)
      end
  | Inf ws =>
      match v with
      | NaN => Ret (PFloat NaN)
      | Inf _ => Ret (PFloat (if ws then Fin 0 else Inf false))
      | Fin v0 =>
          if Reqb (Rabs v0) 1 then Ret (PFloat (Fin 1))
          else if Bool.eqb (negb ws) (Rltb 1 (Rabs v0))
               then Ret (PFloat (Inf false))
               else Ret (PFloat (Fin 0))
      end
  end.

(** Arithmetic where an operand may be complex: the result is then complex. *)
Definition num_sub (a : pynum) (b : pyfloat) : pynum :=
  match a with
  | PFloat x => PFloat (float_sub x b)
  | PComplex => PComplex
  end.

Definition num_radd (a : pyfloat) (b : pynum) : pynum :=
  match b with
  | PFloat y => PFloat (float_add a y)
  | PComplex => PComplex
  end.

Definition num_rmul (a : pyfloat) (b : pynum) : pynum :=
  match b with
  | PFloat y => PFloat (float_mul a y)
  | PComplex => PComplex
  end.

(** [b ** k] with an integer exponent [k >= 0]. *)
Definition num_pow_int (b : pynum) (k : Z) : Exec pynum :=
  match b with
  | PFloat x => float_pow x (Fin (IZR k))
  | PComplex => Ret PComplex
  end.

(** ** Conversions to integers and rounding *)

(** Truncation towards zero. *)
Definition Rtrunc (r : R) : Z :=
  if Rle_dec 0 r then Rfloor r else (- Rfloor (- r))%Z.

(** Rounding to the nearest integer, ties to the even one. *)
Definition round_half_even (r : R) : Z :=
  let f := Rfloor r in
  let d := (r - IZR f)%R in
  if Rlt_dec d (1 / 2) then f
  else if Rlt_dec (1 / 2) d then (f + 1)%Z
  else if Z.even f then f else (f + 1)%Z.

(** [int(x)] *)
Definition py_int (x : pyfloat) : Exec Z :=
  match x with
  | Fin r => Ret (Rtrunc r)
  | Inf _ => Raise OverflowError
  | NaN => Raise ValueError
  end.

(** [round(x)] *)
Definition py_round (x : pynum) : Exec Z :=
  match x with
  | PFloat (Fin r) => Ret (round_half_even r)
  | PFloat (Inf _) => Raise OverflowError
  | PFloat NaN => Raise ValueError
  | PComplex => Raise TypeError
  end.

(** [round(x, 2)], on the exact value of [x]: a decimal tie such as 2.675
    is a tie here, while the float nearest to it lies below the tie. *)
Definition py_round2 (x : pynum) : Exec pyfloat :=
  match x with
  | PFloat (Fin r) => Ret (Fin (IZR (round_half_even (r * 100)) / 100))
  | PFloat y => Ret y
  | PComplex => Raise TypeError
  end.

(** ** Cell values and [float(value)] *)

(** What a cell of the sheet, or [row.get], can hold. *)
Inductive pyval : Type :=
| VNone
| VFloat (x : pyfloat)
| VInt (z : Z)
| VBool (b : bool)
| VStr (s : string)
| VTimestamp (t : Z)
| VNaT.

Module FloatLiteral.

(** The text accepted by [float(str)]:
    [[sign] (number [exponent] | "inf" | "infinity" | "nan")], surrounded by
    optional whitespace; [number] is [[digitpart] "." digitpart] or
    [digitpart ["."]], [digitpart] is [digit (["_"] digit)*]. *)

(** The whitespace [float] skips at both ends: TAB..CR and the space, and
    the spaces above 127 (which it first replaces by a space).  FS..US are
    whitespace for [str.strip] but not here. *)
Definition isspace (c : ascii) : bool :=
  let n := nat_of_ascii c in
  ((9 <=? n)%nat && (n <=? 13)%nat) || (n =? 32)%nat || (n =? 133)%nat || (n =? 160)%nat.

Fixpoint lstrip_chars (s : list ascii) : list ascii :=
  match s with
  | c :: s' => if isspace c then lstrip_chars s' else s
  | [] => []
  end.

Definition strip_chars (s : list ascii) : list ascii :=
  rev (lstrip_chars (rev (lstrip_chars s))).

Definition digit (c : ascii) : option Z :=
  let n := nat_of_ascii c in
  if (48 <=? n)%nat && (n <=? 57)%nat then Some (Z.of_nat (n - 48)) else None.

(** The rest of a digit part, after its first digit: the digits read so far
    as a number, how many there are, and what follows. *)
Fixpoint digits_tail (acc : Z) (n : Z) (s : list ascii) : Z * Z * list ascii :=
  match s with
  | c :: s' =>
      match digit c with
      | Some d => digits_tail (10 * acc + d) (n + 1) s'
      | None =>
          if Ascii.eqb c "_" then
            match s' with
            | c2 :: s'' =>
                match digit c2 with
                | Some d => digits_tail (10 * acc + d) (n + 1) s''
                | None => (acc, n, s)
                end
            | [] => (acc, n, s)
            end
          else (acc, n, s)
      end
  | [] => (acc, n, s)
  end.

Definition digitpart (acc : Z) (n : Z) (s : list ascii) : option (Z * Z * list ascii) :=
  match s with
  | c :: s' =>
      match digit c with
      | Some d => Some (digits_tail (10 * acc + d) (n + 1) s')
      | None => None
      end
  | [] => None
  end.

Definition sign (s : list ascii) : bool * list ascii :=
  match s with
  | c :: s' =>
      if Ascii.eqb c "-" then (true, s')
      else if Ascii.eqb c "+" then (false, s')
      else (false, s)
  | [] => (false, s)
  end.

(** [number]: the digits as an integer, the count of those after the point. *)
Definition number (s : list ascii) : option (Z * Z * list ascii) :=
  match digitpart 0 0 s with
  | Some (m, _, r) =>
      match r with
      | c :: r' =>
          if Ascii.eqb c "." then
            match digitpart m 0 r' with
            | Some res => Some res
            | None => Some (m, 0%Z, r')
            end
          else Some (m, 0%Z, r)
      | [] => Some (m, 0%Z, r)
      end
  | None =>
      match s with
      | c :: r' => if Ascii.eqb c "." then digitpart 0 0 r' else None
      | [] => None
      end
  end.

(** [exponent], when one follows; [None] when the text is malformed. *)
Definition exponent (s : list ascii) : option Z :=
  match s with
  | [] => Some 0%Z
  | c :: s' =>
      if Ascii.eqb c "e" || Ascii.eqb c "E" then
        let '(neg, s'') := sign s' in
        match digitpart 0 0 s'' with
        | Some (e, _, []) => Some (if neg then - e else e)%Z
        | _ => None
        end
      else None
  end.

(** The decimal [m * 10^k] is at least [2^1024 - 2^970], half an ulp above
    the largest float: it is read as an infinity. *)
Definition overflows (m k : Z) : bool :=
  if (0 <=? k)%Z then (2 ^ 1024 - 2 ^ 970 <=? m * 10 ^ k)%Z
  else ((2 ^ 1024 - 2 ^ 970) * 10 ^ (- k) <=? m)%Z.

(** The decimal [m * 10^k] is at most [2^-1075], half the smallest positive
    float: it is read as zero. *)
Definition underflows (m k : Z) : bool :=
  if (0 <=? k)%Z then (m * 10 ^ k * 2 ^ 1075 <=? 1)%Z
  else (m * 2 ^ 1075 <=? 10 ^ (- k))%Z.

(** A literal within the range of the floats denotes its decimal value. *)
Definition parse (s : string) : option pyfloat :=
  let body := strip_chars (list_ascii_of_string s) in
  let '(neg, r) := sign body in
  let word := string_of_list_ascii (map Str.lower_char r) in
  if String.eqb word "inf" || String.eqb word "infinity" then Some (Inf neg)
  else if String.eqb word "nan" then Some NaN
  else
    match number r with
    | Some (m, f, r') =>
        match exponent r' with
        | Some e =>
            if overflows m (e - f) then Some (Inf neg)
            else if underflows m (e - f) then Some (Fin 0)
            else
              let v := (IZR m * powerRZ 10 (e - f))%R in
              Some (Fin (if neg then - v else v))
        | None => None
        end
    | None => None
    end.

End FloatLiteral.

(** An integer that [float] converts: one whose magnitude is below
    [2^1024 - 2^970]. *)
Definition int_fits (z : Z) : bool := (Z.abs z <? 2 ^ 1024 - 2 ^ 970)%Z.

(** [float(value)] *)
Definition py_float (val : pyval) : Exec pyfloat :=
  match val with
  | VFloat x => Ret x
  | VInt z => if int_fits z then Ret (Fin (IZR z)) else Raise OverflowError
  | VBool b => Ret (Fin (if b then 1 else 0))
  | VStr s =>
      match FloatLiteral.parse s with
      | Some x => Ret x
      | None => Raise ValueError
      end
  | VNone | VTimestamp _ | VNaT => Raise TypeError
  end.

Module pd.

(** [pd.notna(value)] on a scalar: false on [None], NaN and [NaT]. *)
Definition notna (val : pyval) : bool :=
  match val with
  | VNone | VFloat NaN | VNaT => false
  | _ => true
  end.

Definition is_number (val : pyval) : bool :=
  match val with VFloat _ | VInt _ => true | _ => false end.

Definition is_bool (val : pyval) : bool :=
  match val with VBool _ => true | _ => false end.

Definition is_timestamp (val : pyval) : bool :=
  match val with VTimestamp _ => true | _ => false end.

Definition is_nat (val : pyval) : bool :=
  match val with VNaT => true | _ => false end.

Definition is_str (val : pyval) : bool :=
  match val with VStr _ => true | _ => false end.

(** Whether a column of Python objects has the [.str] accessor.  pandas
    infers a type from the cells that are not null and refuses the accessor
    (AttributeError) unless that type is "string", "empty", "mixed" or
    "mixed-integer".  It refuses a column whose cells are all numbers, all
    booleans or all timestamps, and one that holds nothing but nulls with a
    [NaT] among them ("datetime"); it accepts a column without a cell, one
    of [None] and NaN only, and one whose cells are of several kinds. *)
Definition str_accessor (cells : list pyval) : bool :=
  match List.filter notna cells with
  | [] => negb (existsb is_nat cells)
  | present =>
      negb (forallb is_number present || forallb is_bool present ||
            forallb is_timestamp present)
  end.

(** Whether [column.str.lower()] is again a column of Python objects.  The
    method lowers the text cells and turns every other present cell into
    NaN; a result that consists of such NaN only is stored by pandas as a
    column of floats, which has no [.str] accessor. *)
Definition stays_object (cells : list pyval) : bool :=
  match List.filter notna cells with
  | [] => true
  | present => existsb is_str present
  end.

(** [column.str.lower().str]: the accessor is granted on the column and
    then on the lowered column. *)
Definition str_lower_str (cells : list pyval) : bool :=
  str_accessor cells && stays_object cells.

End pd.

(** [safe] (main.py, lines 40-41) *)
Definition safe (val : pyval) : Exec pyfloat :=
  if pd.notna val then py_float val else Ret (Fin 0).

(** ** The data frame and the click event *)

(** A row of [df]: column label to cell. *)
Abbreviation Row := (gmap string pyval).

(** [row.get(key, default)] *)
Definition row_get (row : Row) (key : string) (default : pyval) : pyval :=
  match row !! key with
  | Some v => v
  | None => default
  end.

Record Point := { location : string }.

(** [clickData]: [None] before any click, otherwise a dict that may hold a
    list under "points". *)
Record ClickData := { points : option (list Point) }.

(** [df["District"].str.lower().str.strip()] on one row: the accessor gives
    NaN where the cell is not a string. *)
Definition district_key (row : Row) : option string :=
  match row !! "District" with
  | Some (VStr s) => Some (Str.strip (Str.lower s))
  | _ => None
  end.

(** The boolean mask [... == district_name.lower().strip()] on one row. *)
Definition row_matches (district_name : string) (row : Row) : bool :=
  match district_key row with
  | Some k => String.eqb k (Str.strip (Str.lower district_name))
  | None => false
  end.

(** The cell of [df["District"]] in one row; a row without the key stands
    for an empty cell. *)
Definition district_cell (row : Row) : pyval := row_get row "District" (VFloat NaN).

(** [df["District"]] *)
Definition district_column (df : list Row) : list pyval := map district_cell df.

(** ** What the callback returns *)

Inductive Component : Type :=
| Message (text : string)
| DistrictCard (district_name : string)
| PopSection (census_card : Z) (forecast_fig : list (Z * pyfloat))
    (population_kpi_cards : list (Z * Z))
| WasteCharSection (processed_percent : pyfloat)
    (bar_fig : list (string * pyfloat * pyfloat))
    (pie_fig : list (string * pyfloat))
    (vehicle_cards : list (string * Z))
| WasteCompSection (waste_kpis : list (string * pyfloat * string * string)).

Definition Outputs : Type := Component * Component * Component * Component.

(** ** The vehicle optimisation model (main.py, lines 468-506) *)

Module Vehicle.

Definition cap_bulk : R := 20.
Definition cap_lcv : R := 38 / 10.
Definition cap_tri : R := 5 / 10.

Definition cost_bulk : R := 2354.
Definition cost_lcv : R := 1926.
Definition cost_tri : R := 913.

Definition x : pl.LpVariable :=
  {| pl.name := "bulk_trucks"; pl.lowBound := Some 0%R; pl.cat := pl.LpInteger |}.
Definition y : pl.LpVariable :=
  {| pl.name := "lcv_trucks"; pl.lowBound := Some 0%R; pl.cat := pl.LpInteger |}.
Definition z : pl.LpVariable :=
  {| pl.name := "tricycle_trolleys"; pl.lowBound := Some 0%R; pl.cat := pl.LpInteger |}.

(** [problem] as it stands when [problem.solve()] is called. *)
Definition problem (W : pyfloat) : pl.LpProblem :=
  let problem := pl.new "Vehicle_Optimization" pl.LpMinimize in
  let problem :=
    pl.add_objective problem
      [(cost_bulk, x); (cost_lcv, y); (cost_tri, z)] "Total_Daily_Cost" in
  pl.add_constraint problem
    {| pl.lhs := [(cap_bulk, x); (cap_lcv, y); (cap_tri, z)]; pl.rhs := W |}
    "Capacity_Constraint".

(** [int(pl.value(v))] *)
Definition int_value (sol : pl.LpSolution) (v : pl.LpVariable) : Exec Z :=
  match pl.value sol v with
  | Some r => Ret (Rtrunc r)
  | None => Raise TypeError
  end.

(** Build the model for [W], solve it, read the three counts back.  PuLP's
    refusal of a constraint whose right-hand side is not finite is not
    modelled. *)
Definition optimize (W : pyfloat) : Exec (Z * Z * Z) :=
  Solve (problem W) (fun sol =>
    bulk_opt <- int_value sol x ;;
    lcv_opt <- int_value sol y ;;
    tri_opt <- int_value sol z ;;
    Ret (bulk_opt, lcv_opt, tri_opt)).

End Vehicle.

(** ** The population forecast (main.py, lines 282-288) *)

Definition years : list Z := [2025; 2026; 2027; 2028; 2029; 2030]%Z.

(** [CAGR] *)
Definition forecast_cagr (census_pop pop_2025 : pyfloat) : Exec pynum :=
  if float_gt census_pop (Fin 0) then
    q <- float_div pop_2025 census_pop ;;
    p <- float_pow q (Fin (1 / IZR (2025 - 2011))) ;;
    Ret (num_sub p (Fin 1))
  else Ret (PFloat (Fin 0)).

(** [pop_forecast_values] *)
Definition pop_forecast (census_pop pop_2025 : pyfloat) : Exec (list pynum) :=
  CAGR <- forecast_cagr census_pop pop_2025 ;;
  map_exec (fun year =>
              g <- num_pow_int (num_radd (Fin 1) CAGR) (year - 2025) ;;
              Ret (num_rmul pop_2025 g))
           years.

(** ** The waste ratios (main.py, lines 248-250 and 404-405) *)

Definition waste_processed_percent (sw_gen sw_proc : pyfloat) : Exec pyfloat :=
  processed_percent <-
    (if float_gt sw_gen (Fin 0)
     then q <- float_div sw_proc sw_gen ;; Ret (float_mul q (Fin 100))
     else Ret (Fin 0)) ;;
  Ret (if float_gt processed_percent (Fin 100) then Fin 100 else processed_percent).

Definition proc_pie (sw_gen sw_proc : pyfloat) : pyfloat := py_min sw_proc sw_gen.
Definition gap_pie (sw_gen sw_proc : pyfloat) : pyfloat :=
  float_sub sw_gen (proc_pie sw_gen sw_proc).

(** ** The waste ratios on binary64 floats

    The same lines (main.py, 248-250 and 404-405) over the primitive binary64
    floats, whose operations are those of IEEE 754 with rounding to nearest,
    ties to even: the arithmetic of a Python [float].  The integer constants
    0 and 100 of the source are the floats Python converts them to. *)

Module Binary64.

(** [a / b] *)
Definition float_div (a b : float) : Exec float :=
  if PrimFloat.eqb b 0 then Raise ZeroDivisionError else Ret (a / b)%float.

(** The builtin [min(a, b)] *)
Definition py_min (a b : float) : float := if PrimFloat.ltb b a then b else a.

Definition waste_processed_percent (sw_gen sw_proc : float) : Exec float :=
  processed_percent <-
    (if PrimFloat.ltb 0 sw_gen
     then q <- float_div sw_proc sw_gen ;; Ret (q * 100)%float
     else Ret 0%float) ;;
  Ret (if PrimFloat.ltb 100 processed_percent then 100%float else processed_percent).

Definition proc_pie (sw_gen sw_proc : float) : float := py_min sw_proc sw_gen.
Definition gap_pie (sw_gen sw_proc : float) : float :=
  (sw_gen - proc_pie sw_gen sw_proc)%float.

(** A specification value that is finite and not below zero. *)
Definition finite_nonneg (x : spec_float) : Prop :=
  match x with
  | S754_zero _ => True
  | S754_finite s _ _ => s = false
  | _ => False
  end.

(** A specification value that is neither NaN nor below zero. *)
Definition not_below_zero (x : spec_float) : Prop :=
  match x with
  | S754_zero _ => True
  | S754_finite s _ _ => s = false
  | S754_infinity s => s = false
  | S754_nan => False
  end.

(** 0.29 and 0.03, as the floats Python reads them. *)
Definition f_0_29 : float := 0x1.28f5c28f5c28fp-2%float.
Definition f_0_03 : float := 0x1.eb851eb851eb8p-6%float.

End Binary64.

(** ** The callback (main.py, lines 230-618) *)

Definition placeholder : Component := Message "Click a district on the map".
Definition no_data : Component := Message "No data for selected district".

(** Lines 242-618: the four sections for the matched [row]. *)
Definition district_sections (district_name : string) (row : Row) : Exec Outputs :=
  census_pop <- safe (row_get row "Sum of Census 2011 Population" (VInt 0)) ;;
  sw_gen <- safe (row_get row "Sum of SW_Generation (TPD)" (VInt 0)) ;;
  sw_proc <- safe (row_get row "Sum of SW_Processed_ (TPD)" (VInt 0)) ;;
  sw_gap <- safe (row_get row "Sum of SW Collection Gap (in TPD)" (VInt 0)) ;;
  processed_percent <- waste_processed_percent sw_gen sw_proc ;;
  sewage_gen <- safe (row_get row "Sum of Sewage Generation (in MLD)" (VInt 0)) ;;
  growth_rate <-
    safe (row_get row "Average of Decadal Grouth Rate in % (During 2001-2011)" VNone) ;;
  let district_card := DistrictCard district_name in
  census_card <- py_int census_pop ;;
  pop_2025 <- safe (row_get row "Sum of Projected Population by 2025" (VInt 0)) ;;
  pop_forecast_values <- pop_forecast census_pop pop_2025 ;;
  forecast_y <- map_exec py_round2 pop_forecast_values ;;
  kpi_values <- map_exec py_round pop_forecast_values ;;
  let pop_section :=
    PopSection census_card (combine years forecast_y) (combine years kpi_values) in
  sw_gen <- safe (row_get row "Sum of SW_Generation (TPD)" (VInt 0)) ;;
  sw_proc <- safe (row_get row "Sum of SW_Processed_ (TPD)" (VInt 0)) ;;
  sw_gap <- safe (row_get row "Sum of SW Collection Gap (in TPD)" (VInt 0)) ;;
  gen_y <- py_round2 (PFloat sw_gen) ;;
  proc_y <- py_round2 (PFloat sw_proc) ;;
  gap_y <- py_round2 (PFloat sw_gap) ;;
  let bar_fig :=
    [("Generated", sw_gen, gen_y); ("Processed", sw_proc, proc_y); ("Gap", sw_gap, gap_y)] in
  let pie_fig :=
    [("Processed", proc_pie sw_gen sw_proc); ("Gap", gap_pie sw_gen sw_proc)] in
  let W := sw_gen in
  counts <- Vehicle.optimize W ;;
  let '(bulk_opt, lcv_opt, tri_opt) := counts in
  let vehicle_cards :=
    [("New Bulk Trucks Required (20T)", bulk_opt);
     ("New LCV Mini Trucks Required (3.8T)", lcv_opt);
     ("New Tri-cycle Trolleys Required (0.5T)", tri_opt)] in
  let waste_char_section :=
    WasteCharSection processed_percent bar_fig pie_fig vehicle_cards in
  pw <- safe (row_get row "Sum of Estimated PW Generation in TPD" (VInt 0)) ;;
  cd <- safe (row_get row "Sum of C&D Waste Generation in TPD - 2025" (VInt 0)) ;;
  ew_tpa <- safe (row_get row "Sum of e-waste Generation (TPA)" (VInt 0)) ;;
  ew <- float_div ew_tpa (Fin 365) ;;
  let waste_comp_section :=
    WasteCompSection
      [("Total Solid Waste Generated", sw_gen, "TPD", "blue");
       ("Plastic Waste", pw, "TPD", "green");
       ("C&D Waste", cd, "TPD", "orange");
       ("E-waste", ew, "TPD", "red");
       ("Sewage Waste", sewage_gen, "MLD", "brown")] in
  Ret (district_card, pop_section, waste_char_section, waste_comp_section).

(** [update_dashboard(clickData)], with the global [df] as a parameter. *)
Definition update_dashboard (df : list Row) (clickData : option ClickData) : Exec Outputs :=
  match clickData with
  | None => Ret (placeholder, placeholder, placeholder, placeholder)
  | Some click =>
      match points click with
      | None => Ret (placeholder, placeholder, placeholder, placeholder)
      | Some [] => Raise IndexError
      | Some (point :: _) =>
          let district_name := location point in
          if pd.str_lower_str (district_column df) then
            let match_row := List.filter (row_matches district_name) df in
            match match_row with
            | [] => Ret (no_data, no_data, no_data, no_data)
            | row :: _ => district_sections district_name row
            end
          else Raise AttributeError
      end
  end.

(** ** What a solution of a PuLP problem is

    The contract of the external solver, stated on the problem value that
    [problem.solve()] receives. *)

Local Open Scope R_scope.

Module MILP.

Definition assignment : Type := string -> R.

Fixpoint eval (e : pl.LpAffineExpression) (a : assignment) : R :=
  match e with
  | [] => 0
  | (c, v) :: e' => c * a (pl.name v) + eval e' a
  end.

Definition variables (p : pl.LpProblem) : list pl.LpVariable :=
  match pl.objective p with
  | Some (e, _) => map snd e
  | None => []
  end ++ flat_map (fun cn => map snd (pl.lhs (fst cn))) (pl.constraints p).

Definition within_bounds (v : pl.LpVariable) (a : assignment) : Prop :=
  match pl.lowBound v with
  | Some l => l <= a (pl.name v)
  | None => True
  end.

Definition integral (v : pl.LpVariable) (a : assignment) : Prop :=
  match pl.cat v with
  | pl.LpInteger => exists n : Z, a (pl.name v) = IZR n
  | pl.LpContinuous => True
  end.

(** [lhs >= rhs]; nothing is at least [+inf], and a NaN bound is met by
    nothing. *)
Definition satisfies (c : pl.LpConstraint) (a : assignment) : Prop :=
  match pl.rhs c with
  | Fin b => b <= eval (pl.lhs c) a
  | Inf true => True
  | Inf false => False
  | NaN => False
  end.

Definition feasible (p : pl.LpProblem) (a : assignment) : Prop :=
  Forall (fun v => within_bounds v a /\ integral v a) (variables p) /\
  Forall (fun cn => satisfies (fst cn) a) (pl.constraints p).

Definition objective_value (p : pl.LpProblem) (a : assignment) : R :=
  match pl.objective p with
  | Some (e, _) => eval e a
  | None => 0
  end.

Definition no_worse (s : pl.LpSense) (u v : R) : Prop :=
  match s with
  | pl.LpMinimize => u <= v
  | pl.LpMaximize => v <= u
  end.

Definition optimal (p : pl.LpProblem) (a : assignment) : Prop :=
  feasible p a /\
  forall a', feasible p a' -> no_worse (pl.sense p) (objective_value p a) (objective_value p a').

Definition assignment_of (sol : pl.LpSolution) : assignment :=
  fun n => match sol n with Some r => r | None => 0 end.

(** The solver did its job on [p]: every variable has a value and the
    values are an optimal point of [p]. *)
Definition solved (p : pl.LpProblem) (sol : pl.LpSolution) : Prop :=
  Forall (fun v => sol (pl.name v) <> None) (variables p) /\
  optimal p (assignment_of sol).

End MILP.

(** ** Fleet plans over a catalog of (capacity, daily cost) pairs *)

Module Fleet.

Fixpoint total_capacity (catalog : list (R * R)) (counts : list Z) : R :=
  match catalog, counts with
  | (capacity, _) :: catalog', n :: counts' =>
      capacity * IZR n + total_capacity catalog' counts'
  | _, _ => 0
  end.

Fixpoint total_cost (catalog : list (R * R)) (counts : list Z) : R :=
  match catalog, counts with
  | (_, cost) :: catalog', n :: counts' => cost * IZR n + total_cost catalog' counts'
  | _, _ => 0
  end.

(** One non-negative count per vehicle type, covering the requirement. *)
Definition covering (catalog : list (R * R)) (required : R) (counts : list Z) : Prop :=
  length counts = length catalog /\
  Forall (fun n => (0 <= n)%Z) counts /\
  required <= total_capacity catalog counts.

Definition min_cost_plan (catalog : list (R * R)) (required : R) (counts : list Z) : Prop :=
  covering catalog required counts /\
  forall counts', covering catalog required counts' ->
                  total_cost catalog counts <= total_cost catalog counts'.

(** The three vehicle types of main.py: bulk truck, mini LCV, tri-cycle. *)
Definition deployed : list (R * R) :=
  [(Vehicle.cap_bulk, Vehicle.cost_bulk);
   (Vehicle.cap_lcv, Vehicle.cost_lcv);
   (Vehicle.cap_tri, Vehicle.cost_tri)].

(** The counts shown on the vehicle cards after a run. *)
Definition shown_counts (solver : pl.LpProblem -> pl.LpSolution) (W : pyfloat)
  : option (list Z) :=
  match run solver (Vehicle.optimize W) with
  | Returned (bulk_opt, lcv_opt, tri_opt) => Some [bulk_opt; lcv_opt; tri_opt]
  | Raised _ => None
  end.

End Fleet.

(** ** Relations between raw values used in the statements *)

(** A missing or null cell. *)
Definition is_null (val : pyval) : Prop :=
  val = VNone \/ val = VFloat NaN \/ val = VNaT.

(** The number a numeric cell holds: a float that is not NaN, an integer
    in the range of the floats, or a boolean. *)
Definition numeric (val : pyval) : option pyfloat :=
  match val with
  | VFloat NaN => None
  | VFloat x => Some x
  | VInt n => if int_fits n then Some (Fin (IZR n)) else None
  | VBool b => Some (Fin (if b then 1 else 0))
  | _ => None
  end.

Definition float_nonneg (x : pyfloat) : Prop :=
  match x with
  | Fin r => 0 <= r
  | Inf negative => negative = false
  | NaN => False
  end.

(** Two characters that are one letter, in the same or in different case. *)
Definition same_letter (c d : ascii) : Prop :=
  c = d \/ (Str.isupper c = true /\ d = Str.lower_char c)
        \/ (Str.isupper d = true /\ c = Str.lower_char d).

Definition all_space (s : list ascii) : Prop := Forall (fun c => Str.isspace c = true) s.

(** [a] and [b] differ only in letter case and in leading or trailing
    whitespace. *)
Definition differ_in_case_or_padding (a b : string) : Prop :=
  exists la ca ra lb cb rb : list ascii,
    list_ascii_of_string a = (la ++ ca ++ ra)%list /\
    list_ascii_of_string b = (lb ++ cb ++ rb)%list /\
    all_space la /\ all_space ra /\ all_space lb /\ all_space rb /\
    Forall2 same_letter ca cb.

(** The name under which [row] is matched, when its district cell is text. *)
Definition district_of (row : Row) : option string :=
  match row !! "District" with
  | Some (VStr s) => Some s
  | _ => None
  end.

(** The key of the decadal growth-rate column. *)
Definition growth_rate_column : string :=
  "Average of Decadal Grouth Rate in % (During 2001-2011)".



(** The numeric columns [update_dashboard] reads, each with the default it
    passes to [row.get]. *)
Definition numeric_columns : list (string * pyval) :=
  [("Sum of Census 2011 Population", VInt 0);
   ("Sum of SW_Generation (TPD)", VInt 0);
   ("Sum of SW_Processed_ (TPD)", VInt 0);
   ("Sum of SW Collection Gap (in TPD)", VInt 0);
   ("Sum of Sewage Generation (in MLD)", VInt 0);
   (growth_rate_column, VNone);
   ("Sum of Projected Population by 2025", VInt 0);
   ("Sum of Estimated PW Generation in TPD", VInt 0);
   ("Sum of C&D Waste Generation in TPD - 2025", VInt 0);
   ("Sum of e-waste Generation (TPA)", VInt 0)].

(** A computation that returns or raises without calling the solver. *)
Definition pure {A : Type} (m : Exec A) : Prop :=
  (exists a, m = Ret a) \/ (exists e, m = Raise e).

(** ** Sample data for the examples *)

Definition bhopal : Row :=
  <[ "District" := VStr "Bhopal" ]>
  (<[ "Sum of SW_Generation (TPD)" := VFloat (Fin 100) ]>
  (<[ "Sum of SW_Processed_ (TPD)" := VFloat (Fin 60) ]>
  (<[ "Sum of SW Collection Gap (in TPD)" := VFloat (Fin 40) ]> ∅))).

Definition click_on (district_name : string) : option ClickData :=
  Some {| points := Some [ {| location := district_name |} ] |}.

(** A solver that answers every problem with five bulk trucks. *)
Definition five_trucks : pl.LpProblem -> pl.LpSolution :=
  fun _ var => if String.eqb var "bulk_trucks" then Some 5 else Some 0.

(** A row whose numeric columns all resolve to finite, non-negative floats. *)
Definition well_formed_row (row : Row) : Prop :=
  forall key default,
    In (key, default) numeric_columns ->
    exists r, safe (row_get row key default) = Ret (Fin r) /\ 0 <= r.

(** A solver that gives every variable a value. *)
Definition answers (solver : pl.LpProblem -> pl.LpSolution) : Prop :=
  forall p var, solver p var <> None.

(** A solver that answers every problem with no vehicle at all. *)
Definition no_vehicle : pl.LpProblem -> pl.LpSolution :=
  fun _ _ => Some 0.

(** The assignment that gives the three variables the counts [b], [l], [t]. *)
Definition plan_assignment (b l t : Z) : MILP.assignment :=
  fun var =>
    if String.eqb var "bulk_trucks" then IZR b
    else if String.eqb var "lcv_trucks" then IZR l
    else if String.eqb var "tricycle_trolleys" then IZR t
    else 0.

(** The sample district with text in the growth-rate column. *)
Definition bhopal_text_growth : Row := <[ growth_rate_column := VStr "abc" ]> bhopal.

(** ** The collapse callback (main.py, lines 632-647) *)

Module Toggle.

(** [s.split(".")[0]]: the text before the first full stop. *)
Fixpoint before_dot (s : string) : string :=
  match s with
  | EmptyString => EmptyString
  | String c s' => if Ascii.eqb c "." then EmptyString else String c (before_dot s')
  end.

(** An entry of [ctx.triggered]. *)
Record Trigger := { prop_id : string }.

(** [toggle_sections], with [ctx.triggered] as a parameter; the list is
    empty when Dash reports that nothing has triggered the callback. *)
Definition toggle_sections (triggered : list Trigger)
           (n_pop n_waste_char n_waste_comp : Z)
           (is_open_pop is_open_waste_char is_open_waste_comp : bool)
  : bool * bool * bool :=
  match triggered with
  | [] => (false, false, false)
  | first :: _ =>
      let button_id := before_dot (prop_id first) in
      (String.eqb button_id "toggle-pop",
       String.eqb button_id "toggle-waste-char",
       String.eqb button_id "toggle-waste-comp")
  end.

End Toggle.

(** ** Further notions used in the statements *)

(** The outcome [o], with the district card replaced by that of [name]. *)
Definition with_card (name : string) (o : outcome Outputs) : outcome Outputs :=
  match o with
  | Returned (DistrictCard _, pop, waste_char, waste_comp) =>
      Returned (DistrictCard name, pop, waste_char, waste_comp)
  | _ => o
  end.

(** A string without a full stop. *)
Definition dotless (s : string) : Prop := ~ In "."%char (list_ascii_of_string s).

(** * Properties *)

(** ** Deciding comparisons of reals *)

Lemma Rltb_true (a b : R) : a < b -> Rltb a b = true.
Proof. intros H. unfold Rltb. destruct (Rlt_dec a b); [reflexivity | contradiction]. Qed.

Lemma Rltb_false (a b : R) : b <= a -> Rltb a b = false.
Proof. intros H. unfold Rltb. destruct (Rlt_dec a b); [lra | reflexivity]. Qed.

Lemma Reqb_true (a b : R) : a = b -> Reqb a b = true.
Proof. intros H. unfold Reqb. destruct (Req_dec_T a b); [reflexivity | contradiction]. Qed.

Lemma Reqb_false (a b : R) : a <> b -> Reqb a b = false.
Proof. intros H. unfold Reqb. destruct (Req_dec_T a b); [contradiction | reflexivity]. Qed.

(** Settle every comparison in the goal that linear arithmetic decides. *)
Ltac Rcompare :=
  repeat match goal with
    | |- context [Rltb ?a ?b] =>
        first [ rewrite (Rltb_true a b) by lra | rewrite (Rltb_false a b) by lra ]
    | |- context [Reqb ?a ?b] =>
        first [ rewrite (Reqb_true a b) by lra | rewrite (Reqb_false a b) by lra ]
    end.

(** ** [safe] *)

Example parse_abc : FloatLiteral.parse "abc" = None.
Proof. vm_compute. reflexivity. Qed.

Example parse_nan : FloatLiteral.parse " NaN " = Some NaN.
Proof. vm_compute. reflexivity. Qed.

Example parse_minus_inf : FloatLiteral.parse "-Infinity" = Some (Inf true).
Proof. vm_compute. reflexivity. Qed.

Example parse_decimal : FloatLiteral.parse "1_2.50e-1" = Some (Fin (1250 * powerRZ 10 (-3))).
Proof. vm_compute. reflexivity. Qed.

(** A literal beyond the range of the floats is read as an infinity, one
    below it as zero. *)
Example parse_overflow : FloatLiteral.parse "-1e400" = Some (Inf true).
Proof. vm_compute. reflexivity. Qed.

Example parse_underflow : FloatLiteral.parse "1e-400" = Some (Fin 0).
Proof. vm_compute. reflexivity. Qed.

(** A separator (FS, code 28) is whitespace for [str.strip] and not for
    [float]; a no-break space (code 160) is whitespace for both. *)
Example parse_separator : FloatLiteral.parse (String (ascii_of_nat 28) "1.5") = None.
Proof. vm_compute. reflexivity. Qed.

Example parse_no_break_space :
  FloatLiteral.parse (String (ascii_of_nat 160) "15") = Some (Fin (15 * powerRZ 10 0)).
Proof. vm_compute. reflexivity. Qed.

Lemma py_float_int (z : Z) :
  py_float (VInt z) = if int_fits z then Ret (Fin (IZR z)) else Raise OverflowError.
Proof. reflexivity. Qed.

(** [safe] never reaches the solver. *)
Lemma safe_pure (val : pyval) : (exists x, safe val = Ret x) \/ (exists e, safe val = Raise e).
Proof.
  unfold safe.
  destruct val as [ | [r | s | ] | n | b | s | t | ]; cbn [pd.notna py_float]; eauto.
  - destruct (int_fits n); eauto.
  - destruct (FloatLiteral.parse s); eauto.
Qed.

Lemma safe_null (val : pyval) : is_null val -> safe val = Ret (Fin 0).
Proof. intros [-> | [-> | ->]]; reflexivity. Qed.

Lemma py_float_numeric (val : pyval) (x : pyfloat) :
  numeric val = Some x -> py_float val = Ret x.
Proof.
  destruct val as [ | [r | s | ] | n | b | s | t | ]; cbn [numeric py_float]; intros H;
    try discriminate; try (injection H as <-; reflexivity).
  destruct (int_fits n); [injection H as <-; reflexivity | discriminate].
Qed.

Lemma safe_numeric (val : pyval) (x : pyfloat) : numeric val = Some x -> safe val = Ret x.
Proof.
  intros H. unfold safe.
  destruct (pd.notna val) eqn:Hna; [apply py_float_numeric; exact H | ].
  destruct val as [ | [r | s | ] | n | b | s | t | ]; discriminate.
Qed.

Lemma safe_text (s : string) :
  safe (VStr s) = match FloatLiteral.parse s with
                  | Some x => Ret x
                  | None => Raise ValueError
                  end.
Proof. reflexivity. Qed.

(** C3, as stated, fails: a text cell that is not a number makes [safe]
    raise instead of returning 0.0. *)
Lemma safe_raises_on_text : safe (VStr "abc") = Raise ValueError.
Proof. vm_compute. reflexivity. Qed.

(** C3 (amended): [safe] returns exactly 0.0 on a missing or null value
    and [float(value)] on a present numeric one; on text it returns the
    float the text denotes when it is a float literal and raises ValueError
    otherwise; it raises TypeError on a timestamp and OverflowError on an
    integer beyond the range of the floats; it raises in no other case, and
    it never involves the solver. *)
Theorem safe_coercion (val : pyval) :
  (is_null val -> safe val = Ret (Fin 0)) /\
  (forall x, numeric val = Some x -> safe val = Ret x /\ py_float val = Ret x) /\
  (forall s x, val = VStr s -> FloatLiteral.parse s = Some x -> safe val = Ret x) /\
  (forall s, val = VStr s -> FloatLiteral.parse s = None -> safe val = Raise ValueError) /\
  (forall t, val = VTimestamp t -> safe val = Raise TypeError) /\
  (forall z, val = VInt z -> int_fits z = false -> safe val = Raise OverflowError) /\
  ((exists e, safe val = Raise e) <->
   (exists s, val = VStr s /\ FloatLiteral.parse s = None) \/
   (exists t, val = VTimestamp t) \/
   (exists z, val = VInt z /\ int_fits z = false)) /\
  (forall p k, safe val <> Solve p k).
Proof.
  split; [apply safe_null | ].
  split; [intros x H; split; [apply safe_numeric | apply py_float_numeric]; exact H | ].
  split; [intros s x -> H; rewrite safe_text, H; reflexivity | ].
  split; [intros s -> H; rewrite safe_text, H; reflexivity | ].
  split; [intros t ->; reflexivity | ].
  assert (Hint : forall z, int_fits z = false -> safe (VInt z) = Raise OverflowError).
  { intros z H. unfold safe. cbn [pd.notna]. rewrite py_float_int, H. reflexivity. }
  split; [intros z -> H; apply Hint; exact H | ].
  split.
  - split.
    + intros [e H].
      destruct val as [ | [r | s | ] | n | b | s | t | ]; try discriminate H.
      * right. right. exists n. split; [reflexivity | ].
        unfold safe in H. cbn [pd.notna] in H. rewrite py_float_int in H.
        destruct (int_fits n); [discriminate H | reflexivity].
      * left. exists s. split; [reflexivity | ].
        rewrite safe_text in H.
        destruct (FloatLiteral.parse s); [discriminate H | reflexivity].
      * right. left. exists t. reflexivity.
    + intros [[s [-> H]] | [[t ->] | [z [-> H]]]].
      * exists ValueError. rewrite safe_text, H. reflexivity.
      * exists TypeError. reflexivity.
      * exists OverflowError. apply Hint. exact H.
  - intros p k H. destruct (safe_pure val) as [[x Hx] | [e He]]; congruence.
Qed.

Lemma safe_coercion_witness :
  safe (VFloat NaN) = Ret (Fin 0) /\ safe (VInt 7) = Ret (Fin 7) /\
  safe (VStr " -Infinity ") = Ret (Inf true) /\
  safe (VStr (String (ascii_of_nat 28) "1.5")) = Raise ValueError /\
  safe (VTimestamp 0) = Raise TypeError /\
  safe (VInt (2 ^ 1024)) = Raise OverflowError.
Proof.
  split; [ | split; [ | split; [ | split; [ | split]]]].
  - apply (proj1 (safe_coercion (VFloat NaN))). right. left. reflexivity.
  - apply (proj1 (proj2 (safe_coercion (VInt 7)))). reflexivity.
  - apply (proj1 (proj2 (proj2 (safe_coercion (VStr " -Infinity "))))
             " -Infinity " (Inf true) eq_refl).
    vm_compute. reflexivity.
  - apply (proj1 (proj2 (proj2 (proj2 (safe_coercion _)))) _ eq_refl).
    vm_compute. reflexivity.
  - apply (proj1 (proj2 (proj2 (proj2 (proj2 (safe_coercion _))))) 0%Z eq_refl).
  - apply (proj1 (proj2 (proj2 (proj2 (proj2 (proj2 (safe_coercion _)))))) _ eq_refl).
    vm_compute. reflexivity.
Defined.

(** C4, as stated, fails: a negative number in the sheet is resolved to
    itself. *)
Lemma negative_field_resolved :
  safe (row_get ({[ "Sum of SW_Generation (TPD)" := VFloat (Fin (-5)) ]} : Row)
          "Sum of SW_Generation (TPD)" (VInt 0)) = Ret (Fin (-5)) /\
  ~ float_nonneg (Fin (-5)).
Proof.
  split.
  - unfold row_get. rewrite lookup_singleton_eq. reflexivity.
  - simpl. lra.
Qed.

(** C4 (amended): for every raw record and every numeric column that is
    read, an absent or null source value is resolved to 0.0, and a numeric
    source value is resolved to itself; so the resolved field is non-negative
    and not NaN whenever the source value is absent, null or a non-negative
    number. *)
Theorem resolved_fields (row : Row) (key : string) (default : pyval) :
  In (key, default) numeric_columns ->
  (row !! key = None \/ is_null (row_get row key default) ->
   safe (row_get row key default) = Ret (Fin 0)) /\
  (forall x, numeric (row_get row key default) = Some x ->
             safe (row_get row key default) = Ret x) /\
  (row !! key = None \/ is_null (row_get row key default) \/
   (exists x, numeric (row_get row key default) = Some x /\ float_nonneg x) ->
   exists y, safe (row_get row key default) = Ret y /\ float_nonneg y).
Proof.
  intros Hin.
  assert (Habsent : row !! key = None -> safe (row_get row key default) = Ret (Fin 0)).
  { intros Hnone. unfold row_get. rewrite Hnone.
    simpl in Hin.
    repeat (destruct Hin as [Hin | Hin]; [injection Hin as _ <-; reflexivity | ]).
    contradiction. }
  split; [ | split].
  - intros [H | H]; [apply Habsent; exact H | apply safe_null; exact H].
  - intros x H. apply safe_numeric. exact H.
  - intros [H | [H | [x [H Hx]]]].
    + exists (Fin 0). split; [apply Habsent; exact H | simpl; lra].
    + exists (Fin 0). split; [apply safe_null; exact H | simpl; lra].
    + exists x. split; [apply safe_numeric; exact H | exact Hx].
Qed.

Lemma resolved_fields_witness :
  exists y, safe (row_get ∅ "Sum of Census 2011 Population" (VInt 0)) = Ret y /\
            float_nonneg y.
Proof.
  apply (proj2 (proj2 (resolved_fields ∅ "Sum of Census 2011 Population" (VInt 0)
                         ltac:(simpl; left; reflexivity)))).
  left. reflexivity.
Defined.

(** ** Sequencing *)

Lemma bind_ret {A B : Type} (a : A) (f : A -> Exec B) : bind (Ret a) f = f a.
Proof. reflexivity. Qed.

Lemma bind_raise {A B : Type} (e : exn) (f : A -> Exec B) : bind (Raise e) f = Raise e.
Proof. reflexivity. Qed.

Lemma map_exec_ret {A B : Type} (f : A -> Exec B) (g : A -> B) (l : list A) :
  (forall a, In a l -> f a = Ret (g a)) -> map_exec f l = Ret (map g l).
Proof.
  induction l as [ | a l IH]; intros H; simpl; [reflexivity | ].
  rewrite (H a) by (left; reflexivity). simpl.
  rewrite IH by (intros b Hb; apply H; right; exact Hb).
  reflexivity.
Qed.

(** ** The waste ratios *)

Lemma waste_processed_percent_finite (g p : R) :
  0 <= g -> 0 <= p ->
  exists percent, waste_processed_percent (Fin g) (Fin p) = Ret (Fin percent).
Proof.
  intros Hg Hp. unfold waste_processed_percent, float_gt, float_lt.
  destruct (Rlt_dec 0 g) as [Hpos | Hzero].
  - rewrite (Rltb_true 0 g Hpos). unfold float_div.
    rewrite Reqb_false by lra. rewrite !bind_ret. simpl float_mul.
    destruct (Rltb 100 (p / g * 100)); eexists; reflexivity.
  - rewrite (Rltb_false 0 g) by lra. rewrite bind_ret.
    rewrite Rltb_false by lra. eexists. reflexivity.
Qed.

(** ** The waste ratios, in binary64

    The primitive operations are specified on [spec_float] values (sign,
    mantissa, exponent); the facts below are about those.  First, the
    comparisons. *)

Lemma SFcompare_antisym (x y : spec_float) :
  SFcompare y x = match SFcompare x y with Some c => Some (CompOpp c) | None => None end.
Proof.
  destruct x as [sx | sx | | sx mx ex], y as [sy | sy | | sy my ey];
    try destruct sx; try destruct sy; try reflexivity;
    simpl; rewrite (Z.compare_antisym ex ey);
    destruct (ex ?= ey)%Z; simpl; try reflexivity;
    rewrite (Pos.compare_cont_antisym mx my Eq); reflexivity.
Qed.

Lemma SFltb_false_leb (x y : spec_float) :
  x <> S754_nan -> y <> S754_nan -> SFltb x y = false -> SFleb y x = true.
Proof.
  intros Hx Hy. unfold SFltb, SFleb. rewrite (SFcompare_antisym x y).
  destruct (SFcompare x y) as [[ | | ] | ] eqn:Hc; try discriminate; try reflexivity.
  destruct x, y; try discriminate Hc; congruence.
Qed.

Lemma SFltb_leb (x y : spec_float) : SFltb x y = true -> SFleb x y = true.
Proof.
  unfold SFltb, SFleb. destruct (SFcompare x y) as [[ | | ] | ]; try discriminate; reflexivity.
Qed.

Lemma SFcompare_refl (x : spec_float) : x <> S754_nan -> SFcompare x x = Some Eq.
Proof.
  destruct x as [s | s | | s m e]; try congruence; intros _; destruct s; simpl;
    try reflexivity; rewrite Z.compare_refl, Pos.compare_cont_refl; reflexivity.
Qed.

Lemma SFleb_refl (x : spec_float) : x <> S754_nan -> SFleb x x = true.
Proof. intros H. unfold SFleb. rewrite (SFcompare_refl x H). reflexivity. Qed.

Lemma SFeqb_refl (x : spec_float) : x <> S754_nan -> SFeqb x x = true.
Proof. intros H. unfold SFeqb. rewrite (SFcompare_refl x H). reflexivity. Qed.

Lemma finite_nonneg_not_nan (x : spec_float) : Binary64.finite_nonneg x -> x <> S754_nan.
Proof. destruct x; simpl; congruence || tauto. Qed.

Lemma not_below_zero_not_nan (x : spec_float) : Binary64.not_below_zero x -> x <> S754_nan.
Proof. destruct x; simpl; congruence || tauto. Qed.

Lemma not_below_zero_leb (x : spec_float) :
  Binary64.not_below_zero x -> SFleb (S754_zero false) x = true.
Proof. destruct x as [s | s | | s m e]; simpl; try tauto; intros ->; reflexivity. Qed.

(** ** Shifting to the right keeps a mantissa non-negative *)

Lemma shr_1_nonneg (mrs : shr_record) : (0 <= shr_m mrs)%Z -> (0 <= shr_m (shr_1 mrs))%Z.
Proof.
  destruct mrs as [m r s]. simpl.
  destruct m as [ | [p | p | ] | p]; simpl; lia.
Qed.

Lemma iter_pos_nonneg (n : positive) (mrs : shr_record) :
  (0 <= shr_m mrs)%Z -> (0 <= shr_m (SpecFloat.iter_pos shr_1 n mrs))%Z.
Proof.
  revert mrs. induction n as [n IH | n IH | ]; intros mrs H; simpl.
  - apply IH, IH, shr_1_nonneg, H.
  - apply IH, IH, H.
  - apply shr_1_nonneg, H.
Qed.

Lemma shr_fexp_nonneg (m e : Z) (l : SpecFloat.location) :
  (0 <= m)%Z -> (0 <= shr_m (fst (shr_fexp prec emax m e l)))%Z.
Proof.
  intros H. unfold shr_fexp, shr.
  assert (H0 : (0 <= shr_m (shr_record_of_loc m l))%Z)
    by (destruct l as [ | [ | | ]]; exact H).
  destruct (fexp prec emax (Zdigits2 m + e) - e)%Z; simpl; try exact H0.
  apply iter_pos_nonneg, H0.
Qed.

Lemma round_nearest_even_nonneg (m : Z) (l : SpecFloat.location) :
  (0 <= m)%Z -> (0 <= round_nearest_even m l)%Z.
Proof.
  intros H. destruct l as [ | [ | | ]]; simpl; try lia.
  destruct (Z.even m); lia.
Qed.

(** Rounding a non-negative mantissa never gives NaN, and keeps the sign. *)
Lemma binary_round_aux_sign (sx : bool) (mx ex : Z) (lx : SpecFloat.location) :
  (0 <= mx)%Z ->
  match binary_round_aux prec emax sx mx ex lx with
  | S754_zero s | S754_infinity s | S754_finite s _ _ => s = sx
  | S754_nan => False
  end.
Proof.
  intros H. unfold binary_round_aux.
  pose proof (shr_fexp_nonneg mx ex lx H) as H1.
  destruct (shr_fexp prec emax mx ex lx) as [mrs' e']. simpl in H1.
  pose proof (shr_fexp_nonneg _ e' loc_Exact
                (round_nearest_even_nonneg (shr_m mrs') (loc_of_shr_record mrs') H1)) as H2.
  destruct (shr_fexp prec emax (round_nearest_even (shr_m mrs') (loc_of_shr_record mrs')) e'
              loc_Exact) as [mrs'' e'']. simpl in H2.
  destruct (shr_m mrs'') as [ | m | m]; [reflexivity | | lia].
  destruct (e'' <=? emax - prec)%Z; reflexivity.
Qed.

Lemma binary_round_aux_not_below (mx ex : Z) (lx : SpecFloat.location) :
  (0 <= mx)%Z -> Binary64.not_below_zero (binary_round_aux prec emax false mx ex lx).
Proof.
  intros H. pose proof (binary_round_aux_sign false mx ex lx H) as Hs.
  destruct (binary_round_aux prec emax false mx ex lx); simpl; tauto.
Qed.

Lemma binary_round_not_below (m : positive) (e : Z) :
  Binary64.not_below_zero (binary_round prec emax false m e).
Proof.
  unfold binary_round.
  destruct (shl_align m e (fexp prec emax (Z.pos (digits2_pos m) + e))) as [mz ez].
  apply binary_round_aux_not_below. lia.
Qed.

Lemma binary_normalize_not_below (m e : Z) :
  (0 <= m)%Z -> Binary64.not_below_zero (binary_normalize prec emax m e false).
Proof.
  intros H. destruct m as [ | m | m]; simpl; [exact I | apply binary_round_not_below | lia].
Qed.

(** ** Aligned mantissas *)

Lemma iter_xO (m d : positive) : Z.pos (Pos.iter xO m d) = (Z.pos m * 2 ^ Z.pos d)%Z.
Proof.
  revert m. induction d as [ | d IH] using Pos.peano_ind; intros m.
  - simpl. lia.
  - rewrite Pos.iter_succ. rewrite Pos2Z.inj_succ, Z.pow_succ_r by lia.
    change (Z.pos (Pos.iter xO m d)~0) with (2 * Z.pos (Pos.iter xO m d))%Z.
    rewrite IH. lia.
Qed.

(** The mantissa of [m * 2^e] once the exponent is lowered to [ez]. *)
Lemma shl_align_value (m : positive) (e ez : Z) :
  (ez <= e)%Z -> Z.pos (fst (shl_align m e ez)) = (Z.pos m * 2 ^ (e - ez))%Z.
Proof.
  intros H. unfold shl_align.
  destruct (ez - e)%Z as [ | d | d] eqn:Hd; simpl.
  - replace (e - ez)%Z with 0%Z by lia. lia.
  - lia.
  - rewrite iter_xO. f_equal. f_equal. lia.
Qed.

Lemma digits2_pos_bounds (m : positive) :
  (2 ^ (Z.pos (digits2_pos m) - 1) <= Z.pos m < 2 ^ Z.pos (digits2_pos m))%Z.
Proof.
  induction m as [m IH | m IH | ]; simpl digits2_pos.
  - rewrite Pos2Z.inj_succ. replace (Z.succ (Z.pos (digits2_pos m)) - 1)%Z
      with (Z.succ (Z.pos (digits2_pos m) - 1))%Z by lia.
    rewrite !Z.pow_succ_r by lia. lia.
  - rewrite Pos2Z.inj_succ. replace (Z.succ (Z.pos (digits2_pos m)) - 1)%Z
      with (Z.succ (Z.pos (digits2_pos m) - 1))%Z by lia.
    rewrite !Z.pow_succ_r by lia. lia.
  - simpl. lia.
Qed.

(** Of two valid positive floats, the one that does not compare greater has
    the mantissa that is not greater once both are aligned. *)
Lemma aligned_mantissas (mx my : positive) (ex ey : Z) :
  SpecFloat.bounded prec emax mx ex = true -> SpecFloat.bounded prec emax my ey = true ->
  SFleb (S754_finite false mx ex) (S754_finite false my ey) = true ->
  (Z.pos (fst (shl_align mx ex (Z.min ex ey))) <=
   Z.pos (fst (shl_align my ey (Z.min ex ey))))%Z.
Proof.
  intros Hx Hy Hle.
  rewrite !shl_align_value by lia.
  unfold SFleb, SFcompare in Hle.
  unfold SpecFloat.bounded, canonical_mantissa, fexp, SpecFloat.emin in Hx, Hy.
  apply andb_prop in Hx, Hy. destruct Hx as [Hx _], Hy as [Hy _].
  apply Z.eqb_eq in Hx, Hy.
  change prec with 53%Z in *. change emax with 1024%Z in *.
  pose proof (digits2_pos_bounds mx) as Hdx.
  pose proof (digits2_pos_bounds my) as Hdy.
  destruct (Z.compare_spec ex ey) as [Heq | Hlt | Hgt]; [ | | discriminate Hle].
  - subst ey. rewrite Z.min_id, Z.sub_diag, !Z.mul_1_r.
    destruct (Pos.compare_cont Eq mx my) eqn:Hc; try discriminate Hle.
    + apply Pos.compare_eq in Hc. subst. lia.
    + change (Z.pos mx < Z.pos my)%Z in Hc. lia.
  - rewrite Z.min_l by lia. rewrite Z.sub_diag, Z.mul_1_r.
    assert (Hdigy : Z.pos (digits2_pos my) = 53%Z) by lia.
    assert (Hdigx : (Z.pos (digits2_pos mx) <= 53)%Z) by lia.
    rewrite Hdigy in Hdy.
    assert (Hmx : (Z.pos mx < 2 ^ 53)%Z).
    { eapply Z.lt_le_trans; [apply Hdx | ]. apply Z.pow_le_mono_r; lia. }
    assert (Hpow : (2 ^ 1 <= 2 ^ (ey - ex))%Z) by (apply Z.pow_le_mono_r; lia).
    change (2 ^ (53 - 1))%Z with 4503599627370496%Z in Hdy.
    change (2 ^ 53)%Z with 9007199254740992%Z in Hmx.
    change (2 ^ 1)%Z with 2%Z in Hpow.
    nia.
Qed.

(** ** Subtraction and addition on finite non-negative floats *)

Lemma SFsub_not_below (x y : spec_float) :
  valid_binary x = true -> valid_binary y = true ->
  Binary64.finite_nonneg x -> Binary64.finite_nonneg y ->
  SFleb y x = true ->
  Binary64.not_below_zero (SF64sub x y).
Proof.
  intros Vx Vy Hx Hy Hle.
  destruct x as [sx | sx | | sx mx ex], y as [sy | sy | | sy my ey];
    simpl in Hx, Hy; try contradiction; subst.
  - destruct sx, sy; exact I.
  - discriminate Hle.
  - reflexivity.
  - unfold SF64sub, SFsub. apply binary_normalize_not_below.
    simpl in Vx, Vy.
    pose proof (aligned_mantissas my mx ey ex Vy Vx Hle) as H.
    rewrite (Z.min_comm ey ex) in H. unfold cond_Zopp. lia.
Qed.

Lemma shl_align_diag (m : positive) (e : Z) : shl_align m e e = (m, e).
Proof. unfold shl_align. rewrite Z.sub_diag. reflexivity. Qed.

Lemma SFsub_diag (x : spec_float) :
  Binary64.finite_nonneg x -> SF64sub x x = S754_zero false.
Proof.
  destruct x as [s | s | | s m e]; simpl; try contradiction.
  - intros _. destruct s; reflexivity.
  - intros ->. unfold SF64sub, SFsub. rewrite Z.min_id, shl_align_diag.
    unfold cond_Zopp, fst. rewrite Z.sub_diag. reflexivity.
Qed.

(** Two finite non-negative floats that compare equal are the same float,
    or two zeros. *)
Lemma SFcompare_Eq (x y : spec_float) :
  Binary64.finite_nonneg x -> Binary64.finite_nonneg y ->
  SFcompare x y = Some Eq ->
  x = y \/ exists sx sy, x = S754_zero sx /\ y = S754_zero sy.
Proof.
  intros Hx Hy Hc.
  destruct x as [sx | sx | | sx mx ex], y as [sy | sy | | sy my ey];
    simpl in Hx, Hy; try contradiction; subst; try discriminate Hc.
  - right. eauto.
  - left. simpl in Hc.
    destruct (Z.compare_spec ex ey) as [-> | _ | _]; try discriminate Hc.
    injection Hc as Hc. apply Pos.compare_eq in Hc. subst. reflexivity.
Qed.

Lemma SFadd_zero_r (x : spec_float) (s : bool) :
  Binary64.finite_nonneg x -> SFeqb (SF64add x (S754_zero s)) x = true.
Proof.
  destruct x as [sx | sx | | sx m e]; simpl; try contradiction.
  - intros _. destruct sx, s; reflexivity.
  - intros ->. apply SFeqb_refl. discriminate.
Qed.

(** ** Division and multiplication of floats that are not below zero *)

Lemma SFdiv_not_below (x y : spec_float) (my : positive) (ey : Z) :
  Binary64.finite_nonneg x -> y = S754_finite false my ey ->
  Binary64.not_below_zero (SF64div x y).
Proof.
  intros Hx ->.
  destruct x as [sx | sx | | sx mx ex]; simpl in Hx; try contradiction.
  - exact I.
  - subst. unfold SF64div, SFdiv, SFdiv_core_binary.
    set (e' := Z.min _ _). set (m' := match (ex - ey - e')%Z with Z0 => _ | _ => _ end).
    assert (Hm' : (0 <= m')%Z).
    { unfold m'. destruct (ex - ey - e')%Z; try lia. apply Z.shiftl_nonneg. lia. }
    pose proof (Z_div_mod m' (Z.pos my) ltac:(lia)) as Hdiv.
    destruct (Z.div_eucl m' (Z.pos my)) as [q r].
    apply binary_round_aux_not_below. nia.
Qed.

Lemma SFmul_not_below (x y : spec_float) (my : positive) (ey : Z) :
  Binary64.not_below_zero x -> y = S754_finite false my ey ->
  Binary64.not_below_zero (SF64mul x y).
Proof.
  intros Hx ->.
  destruct x as [sx | sx | | sx mx ex]; simpl in Hx; try contradiction; subst.
  - exact I.
  - reflexivity.
  - unfold SF64mul, SFmul. apply binary_round_aux_not_below. lia.
Qed.

(** ** From the primitive operations to their specification *)

Lemma finite_nonneg_of_float (x : float) :
  is_finite x = true -> PrimFloat.leb 0 x = true -> Binary64.finite_nonneg (Prim2SF x).
Proof.
  unfold is_finite, is_nan, is_infinity.
  rewrite FloatAxioms.leb_spec, !FloatAxioms.eqb_spec, FloatAxioms.abs_spec.
  change (Prim2SF 0) with (S754_zero false).
  change (Prim2SF infinity) with (S754_infinity false).
  destruct (Prim2SF x) as [s | s | | s m e]; intros Hfin Hle.
  - exact I.
  - destruct s; discriminate Hfin.
  - discriminate Hfin.
  - destruct s; [discriminate Hle | reflexivity].
Qed.

Lemma positive_of_float (x : float) :
  is_finite x = true -> PrimFloat.ltb 0 x = true ->
  exists m e, Prim2SF x = S754_finite false m e.
Proof.
  unfold is_finite, is_nan, is_infinity.
  rewrite FloatAxioms.ltb_spec, !FloatAxioms.eqb_spec, FloatAxioms.abs_spec.
  change (Prim2SF 0) with (S754_zero false).
  change (Prim2SF infinity) with (S754_infinity false).
  destruct (Prim2SF x) as [s | s | | s m e]; intros Hfin Hlt.
  - discriminate Hlt.
  - destruct s; discriminate Hfin.
  - discriminate Hfin.
  - destruct s; [discriminate Hlt | eauto].
Qed.

(** C7, as stated, fails: the two pie quantities need not sum exactly to
    the generated figure.  With 0.29 generated and 0.03 processed the gap is
    the float nearest to 0.26, and adding 0.03 back gives
    0.29000000000000004. *)
Lemma pie_sum_is_rounded :
  PrimFloat.eqb (Binary64.proc_pie Binary64.f_0_29 Binary64.f_0_03 +
                 Binary64.gap_pie Binary64.f_0_29 Binary64.f_0_03)
                Binary64.f_0_29 = false /\
  PrimFloat.ltb Binary64.f_0_29
                (Binary64.proc_pie Binary64.f_0_29 Binary64.f_0_03 +
                 Binary64.gap_pie Binary64.f_0_29 Binary64.f_0_03) = true.
Proof. split; vm_compute; reflexivity. Qed.

(** C7 (amended): for finite floats [g >= 0] (generated) and [p >= 0]
    (processed), the processed pie quantity is the smaller of [p] and [g]
    and the gap is the rounded difference [g - min(p, g)]; both are
    non-negative; when [p >= g] the gap is zero and the two sum to [g]
    exactly (otherwise only up to rounding).  The processed percentage is
    the rounded [p / g * 100] capped at 100 when [g > 0] and 0 otherwise, is
    computed without raising, and lies in [0, 100]. *)
Theorem waste_ratios_binary64 (g p : float) :
  is_finite g = true -> is_finite p = true ->
  PrimFloat.leb 0 g = true -> PrimFloat.leb 0 p = true ->
  let proc := Binary64.proc_pie g p in
  let gap := Binary64.gap_pie g p in
  PrimFloat.leb proc p = true /\ PrimFloat.leb proc g = true /\
  (proc = p \/ proc = g) /\
  gap = (g - proc)%float /\
  PrimFloat.leb 0 proc = true /\ PrimFloat.leb 0 gap = true /\
  (PrimFloat.leb g p = true ->
   PrimFloat.eqb gap 0 = true /\ PrimFloat.eqb (proc + gap) g = true) /\
  exists percent,
    Binary64.waste_processed_percent g p = Ret percent /\
    (PrimFloat.ltb 0 g = true ->
     percent = if PrimFloat.ltb 100 (p / g * 100) then 100%float else (p / g * 100)%float) /\
    (PrimFloat.ltb 0 g = false -> percent = 0%float) /\
    PrimFloat.leb 0 percent = true /\ PrimFloat.leb percent 100 = true.
Proof.
  intros Fg Fp Hg Hp proc gap.
  pose proof (finite_nonneg_of_float g Fg Hg) as Ng.
  pose proof (finite_nonneg_of_float p Fp Hp) as Np.
  pose proof (finite_nonneg_not_nan _ Ng) as NNg.
  pose proof (finite_nonneg_not_nan _ Np) as NNp.
  assert (Hprocp : PrimFloat.leb proc p = true).
  { unfold proc, Binary64.proc_pie, Binary64.py_min.
    destruct (PrimFloat.ltb g p) eqn:Hlt; rewrite FloatAxioms.leb_spec.
    - rewrite FloatAxioms.ltb_spec in Hlt. apply SFltb_leb, Hlt.
    - apply SFleb_refl, NNp. }
  assert (Hprocg : PrimFloat.leb proc g = true).
  { unfold proc, Binary64.proc_pie, Binary64.py_min.
    destruct (PrimFloat.ltb g p) eqn:Hlt; rewrite FloatAxioms.leb_spec.
    - apply SFleb_refl, NNg.
    - rewrite FloatAxioms.ltb_spec in Hlt. apply SFltb_false_leb; assumption. }
  assert (Hcases : proc = p \/ proc = g).
  { unfold proc, Binary64.proc_pie, Binary64.py_min.
    destruct (PrimFloat.ltb g p); [right | left]; reflexivity. }
  assert (Nproc : Binary64.finite_nonneg (Prim2SF proc))
    by (destruct Hcases as [-> | ->]; assumption).
  split; [exact Hprocp | ]. split; [exact Hprocg | ]. split; [exact Hcases | ].
  split; [reflexivity | ].
  split; [destruct Hcases as [-> | ->]; assumption | ].
  split.
  { unfold gap, Binary64.gap_pie. fold proc. rewrite FloatAxioms.leb_spec, FloatAxioms.sub_spec.
    change (Prim2SF 0) with (S754_zero false).
    apply not_below_zero_leb, SFsub_not_below;
      try apply Prim2SF_valid; try assumption.
    rewrite <- FloatAxioms.leb_spec. exact Hprocg. }
  split.
  { intros Hle. unfold gap, Binary64.gap_pie. fold proc.
    rewrite !FloatAxioms.eqb_spec, FloatAxioms.add_spec, FloatAxioms.sub_spec.
    change (Prim2SF 0) with (S754_zero false).
    unfold proc, Binary64.proc_pie, Binary64.py_min.
    destruct (PrimFloat.ltb g p) eqn:Hlt.
    - rewrite (SFsub_diag _ Ng). split; [reflexivity | apply SFadd_zero_r, Ng].
    - rewrite FloatAxioms.ltb_spec in Hlt. rewrite FloatAxioms.leb_spec in Hle.
      assert (Hc : SFcompare (Prim2SF g) (Prim2SF p) = Some Eq).
      { unfold SFltb in Hlt. unfold SFleb in Hle.
        destruct (SFcompare (Prim2SF g) (Prim2SF p)) as [[ | | ] | ];
          try discriminate; reflexivity. }
      destruct (SFcompare_Eq _ _ Ng Np Hc) as [Heq | (sg & sp & Hsg & Hsp)].
      + rewrite Heq, (SFsub_diag _ Np). split; [reflexivity | apply SFadd_zero_r, Np].
      + rewrite Hsg, Hsp. destruct sg, sp; split; reflexivity. }
  unfold Binary64.waste_processed_percent.
  destruct (PrimFloat.ltb 0 g) eqn:Hpos.
  - destruct (positive_of_float g Fg Hpos) as (mg & eg & Hsg).
    unfold Binary64.float_div.
    assert (Hnz : PrimFloat.eqb g 0 = false).
    { rewrite FloatAxioms.eqb_spec, Hsg. reflexivity. }
    rewrite Hnz. simpl bind.
    eexists. split; [reflexivity | ].
    split; [intros _; reflexivity | ]. split; [discriminate | ].
    assert (Npp : Binary64.not_below_zero (Prim2SF (p / g * 100))).
    { rewrite FloatAxioms.mul_spec, FloatAxioms.div_spec.
      eapply SFmul_not_below; [ | vm_compute; reflexivity].
      eapply SFdiv_not_below; [exact Np | exact Hsg]. }
    destruct (PrimFloat.ltb 100 (p / g * 100)) eqn:Hcap.
    + split; reflexivity.
    + split; rewrite FloatAxioms.leb_spec.
      * apply not_below_zero_leb in Npp. exact Npp.
      * rewrite FloatAxioms.ltb_spec in Hcap. apply SFltb_false_leb; try exact Hcap.
        -- vm_compute. discriminate.
        -- apply not_below_zero_not_nan, Npp.
  - simpl bind. eexists. split; [reflexivity | ].
    split; [discriminate | ]. split; [intros _; reflexivity | ].
    split; reflexivity.
Qed.

Lemma waste_ratios_binary64_witness :
  PrimFloat.eqb (Binary64.gap_pie 10 15) 0 = true /\
  PrimFloat.eqb (Binary64.proc_pie 10 15 + Binary64.gap_pie 10 15) 10 = true /\
  exists percent,
    Binary64.waste_processed_percent 10 15 = Ret percent /\
    PrimFloat.leb percent 100 = true.
Proof.
  destruct (waste_ratios_binary64 10 15 eq_refl eq_refl eq_refl eq_refl)
    as (_ & _ & _ & _ & _ & _ & Hsum & percent & Hpercent & _ & _ & _ & Hcap).
  destruct (Hsum eq_refl) as [Hgap Hexact].
  split; [exact Hgap | ]. split; [exact Hexact | ].
  exists percent. split; [exact Hpercent | exact Hcap].
Defined.

(** ** The population forecast *)

Lemma float_mul_1_r (a : pyfloat) : float_mul a (Fin 1) = a.
Proof.
  destruct a as [r | s | ]; simpl.
  - rewrite Rmult_1_r. reflexivity.
  - Rcompare. rewrite xorb_false_r. reflexivity.
  - reflexivity.
Qed.

(** A non-negative float raised to a non-negative integer is the power by
    repeated multiplication. *)
Lemma float_pow_int (r : R) (k : Z) :
  0 <= r -> (0 <= k)%Z ->
  float_pow (Fin r) (Fin (IZR k)) = Ret (PFloat (Fin (r ^ Z.to_nat k))).
Proof.
  intros Hr Hk. unfold float_pow.
  destruct (Z.eq_dec k 0%Z) as [-> | Hk0].
  - rewrite Reqb_true by reflexivity. reflexivity.
  - assert (Hpos : 0 < IZR k) by (apply IZR_lt; lia).
    rewrite (Reqb_false (IZR k) 0) by lra.
    destruct (Req_dec_T r 0) as [-> | Hr0].
    + rewrite Reqb_true by reflexivity. rewrite Rltb_false by lra.
      rewrite pow_i by lia. reflexivity.
    + rewrite (Reqb_false r 0) by exact Hr0. rewrite (Rltb_false r 0) by lra.
      destruct (Req_dec_T r 1) as [-> | Hr1].
      * rewrite Reqb_true by reflexivity. rewrite pow1. reflexivity.
      * rewrite (Reqb_false r 1) by exact Hr1.
        rewrite <- Rpower_pow by lra.
        rewrite INR_IZR_INZ, Z2Nat.id by exact Hk. reflexivity.
Qed.

Lemma years_from_base (year : Z) : In year years -> (0 <= year - 2025)%Z.
Proof.
  unfold years. simpl.
  intros H. repeat (destruct H as [<- | H]; [lia | ]). contradiction.
Qed.

(** The series once the growth rate is known to be a float not below -1. *)
Lemma pop_forecast_of_cagr (census_pop pop_2025 : pyfloat) (cagr : R) :
  forecast_cagr census_pop pop_2025 = Ret (PFloat (Fin cagr)) ->
  0 <= 1 + cagr ->
  pop_forecast census_pop pop_2025 =
  Ret (map (fun year => PFloat (float_mul pop_2025 (Fin ((1 + cagr) ^ Z.to_nat (year - 2025)))))
           years).
Proof.
  intros Hcagr Hbase. unfold pop_forecast. rewrite Hcagr, bind_ret.
  apply map_exec_ret. intros year Hyear.
  unfold num_radd, num_pow_int, float_add.
  rewrite float_pow_int by (try exact Hbase; apply years_from_base; exact Hyear).
  reflexivity.
Qed.

Lemma forecast_cagr_no_census (census_pop pop_2025 : pyfloat) :
  float_gt census_pop (Fin 0) = false ->
  forecast_cagr census_pop pop_2025 = Ret (PFloat (Fin 0)).
Proof. intros H. unfold forecast_cagr. rewrite H. reflexivity. Qed.

(** Without a positive census figure the projection is flat. *)
Lemma flat_forecast (census_pop pop_2025 : pyfloat) :
  float_gt census_pop (Fin 0) = false ->
  pop_forecast census_pop pop_2025 = Ret (map (fun _ => PFloat pop_2025) years).
Proof.
  intros H.
  rewrite (pop_forecast_of_cagr census_pop pop_2025 0)
    by (try (apply forecast_cagr_no_census; exact H); lra).
  f_equal. apply map_ext. intros year.
  replace (1 + 0) with 1 by lra. rewrite pow1, float_mul_1_r. reflexivity.
Qed.

(** C6: when the census population is 0 the forecast is the projected 2025
    population, unchanged, for every year of the horizon; nothing is raised. *)
Theorem census_zero_flat_forecast (P : pyfloat) :
  pop_forecast (Fin 0) P =
  Ret [PFloat P; PFloat P; PFloat P; PFloat P; PFloat P; PFloat P].
Proof.
  rewrite flat_forecast; [reflexivity | ].
  unfold float_gt, float_lt. apply Rltb_false. lra.
Qed.

(** The fractional power taken for the growth rate is the fourteenth root. *)
Lemma float_pow_root14 (q : R) :
  0 <= q ->
  exists root,
    float_pow (Fin q) (Fin (1 / IZR (2025 - 2011))) = Ret (PFloat (Fin root)) /\
    0 <= root /\ root ^ 14 = q /\
    (0 < q -> root = Rpower q (1 / 14)).
Proof.
  intros Hq. change (IZR (2025 - 2011)) with 14.
  unfold float_pow. rewrite (Reqb_false (1 / 14) 0) by lra.
  destruct (Req_dec_T q 0) as [-> | Hq0].
  - rewrite Reqb_true by reflexivity. rewrite Rltb_false by lra.
    exists 0. repeat split; try lra; try (apply pow_i; lia).
  - rewrite (Reqb_false q 0) by exact Hq0. rewrite (Rltb_false q 0) by lra.
    assert (Hroot : Rpower q (1 / 14) ^ 14 = q).
    { rewrite <- Rpower_pow by apply exp_pos.
      rewrite Rpower_mult.
      replace (1 / 14 * INR 14) with 1 by (simpl; lra).
      apply Rpower_1. lra. }
    destruct (Req_dec_T q 1) as [-> | Hq1].
    + rewrite Reqb_true by reflexivity.
      exists 1. repeat split; try lra; try apply pow1.
      intros _. unfold Rpower. rewrite ln_1, Rmult_0_r, exp_0. reflexivity.
    + rewrite (Reqb_false q 1) by exact Hq1.
      exists (Rpower q (1 / 14)). repeat split.
      * left. apply exp_pos.
      * exact Hroot.
Qed.

(** The growth rate on finite data. *)
Lemma forecast_cagr_value (C P : R) :
  (0 < C -> 0 <= P) ->
  exists cagr : R,
    forecast_cagr (Fin C) (Fin P) = Ret (PFloat (Fin cagr)) /\
    0 <= 1 + cagr /\
    (0 < C -> (1 + cagr) ^ 14 = P / C) /\
    (0 < C -> 0 < P -> cagr = Rpower (P / C) (1 / 14) - 1) /\
    (~ 0 < C -> cagr = 0).
Proof.
  intros HP.
  destruct (Rlt_dec 0 C) as [HC | HC].
  - assert (Hq : 0 <= P / C).
    { unfold Rdiv. apply Rmult_le_pos; [exact (HP HC) | ].
      left. apply Rinv_0_lt_compat. exact HC. }
    destruct (float_pow_root14 (P / C) Hq) as (root & Hpow & Hroot0 & Hroot & Hpos).
    assert (Hone : 1 + (root - 1) = root) by lra.
    exists (root - 1).
    split.
    { unfold forecast_cagr, float_gt, float_lt.
      rewrite (Rltb_true 0 C HC). unfold float_div.
      rewrite Reqb_false by lra. rewrite bind_ret, Hpow, bind_ret. reflexivity. }
    split; [lra | ].
    split; [intros _; rewrite Hone; exact Hroot | ].
    split; [ | intros H; contradiction].
    intros _ HPpos. rewrite Hpos; [reflexivity | ].
    unfold Rdiv. apply Rmult_lt_0_compat; [exact HPpos | ].
    apply Rinv_0_lt_compat. exact HC.
  - exists 0.
    split.
    { apply forecast_cagr_no_census. unfold float_gt, float_lt. apply Rltb_false. lra. }
    split; [lra | ].
    split; [intros H; contradiction | ].
    split; [intros H; contradiction | reflexivity].
Qed.

(** ** Runs and solver calls of composed computations *)

Lemma bind_solve {A B : Type} (p : pl.LpProblem) (k : pl.LpSolution -> Exec A)
      (f : A -> Exec B) :
  bind (Solve p k) f = Solve p (fun sol => bind (k sol) f).
Proof. reflexivity. Qed.

Lemma run_solve {A : Type} (solver : pl.LpProblem -> pl.LpSolution)
      (p : pl.LpProblem) (k : pl.LpSolution -> Exec A) :
  run solver (Solve p k) = run solver (k (solver p)).
Proof. reflexivity. Qed.

Lemma run_bind {A B : Type} (solver : pl.LpProblem -> pl.LpSolution)
      (m : Exec A) (f : A -> Exec B) :
  run solver (bind m f) =
  match run solver m with
  | Returned a => run solver (f a)
  | Raised e => Raised e
  end.
Proof.
  induction m as [a | e | p k IH]; simpl; [reflexivity | reflexivity | apply IH].
Qed.

Lemma solver_calls_bind {A B : Type} (solver : pl.LpProblem -> pl.LpSolution)
      (m : Exec A) (f : A -> Exec B) :
  solver_calls solver (bind m f) =
  (solver_calls solver m ++
   match run solver m with
   | Returned a => solver_calls solver (f a)
   | Raised _ => []
   end)%list.
Proof.
  induction m as [a | e | p k IH]; simpl; [reflexivity | reflexivity | ].
  rewrite IH. reflexivity.
Qed.

Lemma pure_no_calls {A : Type} (solver : pl.LpProblem -> pl.LpSolution) (m : Exec A) :
  pure m -> solver_calls solver m = [].
Proof. intros [[a ->] | [e ->]]; reflexivity. Qed.

Lemma pure_ret {A : Type} (a : A) : pure (Ret a).
Proof. left. exists a. reflexivity. Qed.

Lemma pure_raise {A : Type} (e : exn) : pure (@Raise A e).
Proof. right. exists e. reflexivity. Qed.

Lemma pure_bind {A B : Type} (m : Exec A) (f : A -> Exec B) :
  pure m -> (forall a, pure (f a)) -> pure (bind m f).
Proof.
  intros [[a ->] | [e ->]] Hf; simpl; [apply Hf | apply pure_raise].
Qed.

Lemma pure_map_exec {A B : Type} (f : A -> Exec B) (l : list A) :
  (forall a, pure (f a)) -> pure (map_exec f l).
Proof.
  intros Hf. induction l as [ | a l IH]; simpl; [apply pure_ret | ].
  apply pure_bind; [apply Hf | ]. intros b.
  apply pure_bind; [exact IH | ]. intros bs. apply pure_ret.
Qed.

Lemma pure_if {A : Type} (b : bool) (m1 m2 : Exec A) :
  pure m1 -> pure m2 -> pure (if b then m1 else m2).
Proof. destruct b; auto. Qed.

Lemma pure_safe (val : pyval) : pure (safe val).
Proof. exact (safe_pure val). Qed.

Lemma pure_float_div (a b : pyfloat) : pure (float_div a b).
Proof.
  unfold float_div.
  destruct b as [r | s | ]; [ | destruct a; apply pure_ret | apply pure_ret].
  destruct (Reqb r 0); [apply pure_raise | destruct a; apply pure_ret].
Qed.

Lemma pure_float_pow (v w : pyfloat) : pure (float_pow v w).
Proof.
  unfold float_pow.
  destruct w as [w0 | ws | ]; destruct v as [v0 | vs | ];
    repeat (apply pure_if || apply pure_ret || apply pure_raise).
Qed.

Lemma pure_py_int (a : pyfloat) : pure (py_int a).
Proof. destruct a; [apply pure_ret | apply pure_raise | apply pure_raise]. Qed.

Lemma pure_py_round (a : pynum) : pure (py_round a).
Proof. destruct a as [[r | s | ] | ]; (apply pure_ret || apply pure_raise). Qed.

Lemma pure_py_round2 (a : pynum) : pure (py_round2 a).
Proof. destruct a as [[r | s | ] | ]; (apply pure_ret || apply pure_raise). Qed.

Lemma pure_waste_processed_percent (sw_gen sw_proc : pyfloat) :
  pure (waste_processed_percent sw_gen sw_proc).
Proof.
  unfold waste_processed_percent.
  apply pure_bind; [ | intros a; apply pure_ret].
  apply pure_if; [ | apply pure_ret].
  apply pure_bind; [apply pure_float_div | intros q; apply pure_ret].
Qed.

Lemma pure_pop_forecast (census_pop pop_2025 : pyfloat) :
  pure (pop_forecast census_pop pop_2025).
Proof.
  unfold pop_forecast, forecast_cagr.
  apply pure_bind.
  - apply pure_if; [ | apply pure_ret].
    apply pure_bind; [apply pure_float_div | intros q].
    apply pure_bind; [apply pure_float_pow | intros r; apply pure_ret].
  - intros cagr. apply pure_map_exec. intros year.
    apply pure_bind; [ | intros g; apply pure_ret].
    unfold num_pow_int. destruct (num_radd (Fin 1) cagr); [apply pure_float_pow | apply pure_ret].
Qed.

Lemma pure_int_value (sol : pl.LpSolution) (v : pl.LpVariable) :
  pure (Vehicle.int_value sol v).
Proof.
  unfold Vehicle.int_value. destruct (pl.value sol v); [apply pure_ret | apply pure_raise].
Qed.

Create HintDb pure.
#[export] Hint Resolve pure_ret pure_raise pure_safe pure_float_div pure_float_pow pure_py_int
  pure_py_round pure_py_round2 pure_waste_processed_percent pure_pop_forecast
  pure_int_value pure_map_exec pure_bind : pure.

(** One step of a computation whose first stage is pure: either the stage
    raises, and so does the whole, or its value is passed on. *)
Ltac step_with closer :=
  lazymatch goal with
  | |- context [bind (Ret ?a) ?f] => rewrite (bind_ret a f)
  | |- context [bind ?m ?f] =>
      let H := fresh "Hstage" in
      assert (H : pure m) by auto with pure;
      destruct H as [[? H] | [? H]];
      rewrite H; [rewrite bind_ret | rewrite bind_raise; simpl; closer]
  end.

Ltac step_pure := step_with ltac:(try exact I).

Ltac step_run := step_with ltac:(try (let H := fresh in intros H; discriminate H)).

Ltac pure_chain :=
  repeat (apply pure_bind; [solve [auto with pure] | intros ?]);
  try apply pure_ret.

(** The shape of [district_sections]: it raises before the model is built,
    or it submits exactly the model for the coerced generation figure and
    goes on without the solver. *)
Lemma district_sections_shape (district_name : string) (row : Row) :
  match district_sections district_name row with
  | Ret _ => False
  | Raise _ => True
  | Solve p k =>
      exists sw_gen,
        safe (row_get row "Sum of SW_Generation (TPD)" (VInt 0)) = Ret sw_gen /\
        p = Vehicle.problem sw_gen /\
        forall sol, pure (k sol)
  end.
Proof.
  unfold district_sections.
  repeat step_pure.
  unfold Vehicle.optimize. rewrite bind_solve.
  eexists. split; [reflexivity | ]. split; [reflexivity | ].
  intros sol.
  apply pure_bind.
  - pure_chain.
  - intros [[bulk_opt lcv_opt] tri_opt]. pure_chain.
Qed.

Lemma district_sections_calls (solver : pl.LpProblem -> pl.LpSolution)
      (district_name : string) (row : Row) (p : pl.LpProblem) :
  In p (solver_calls solver (district_sections district_name row)) ->
  exists sw_gen,
    safe (row_get row "Sum of SW_Generation (TPD)" (VInt 0)) = Ret sw_gen /\
    solver_calls solver (district_sections district_name row) = [Vehicle.problem sw_gen] /\
    p = Vehicle.problem sw_gen.
Proof.
  pose proof (district_sections_shape district_name row) as Hshape.
  destruct (district_sections district_name row) as [out | e | q k];
    [contradiction | intros [] | ].
  destruct Hshape as (sw_gen & Hgen & -> & Hpure).
  simpl. rewrite (pure_no_calls solver _ (Hpure _)).
  intros [<- | []]. exists sw_gen. repeat split; assumption || reflexivity.
Qed.

(** ** The accessor of the district column *)

Lemma str_accessor_text (cells : list pyval) (s : string) :
  In (VStr s) cells -> pd.str_accessor cells = true.
Proof.
  intros Hin. unfold pd.str_accessor.
  assert (Hpresent : In (VStr s) (List.filter pd.notna cells))
    by (apply filter_In; split; [exact Hin | reflexivity]).
  destruct (List.filter pd.notna cells) as [ | c present]; [contradiction | ].
  assert (Hnot : forall f, f (VStr s) = false -> forallb f (c :: present) = false).
  { intros f Hf. destruct (forallb f (c :: present)) eqn:Hall; [ | reflexivity].
    rewrite forallb_forall in Hall. rewrite (Hall _ Hpresent) in Hf. discriminate Hf. }
  rewrite !Hnot by reflexivity. reflexivity.
Qed.

Lemma str_lower_str_text (cells : list pyval) (s : string) :
  In (VStr s) cells -> pd.str_lower_str cells = true.
Proof.
  intros Hin. unfold pd.str_lower_str. rewrite (str_accessor_text cells s Hin).
  unfold pd.stays_object.
  assert (Hpresent : In (VStr s) (List.filter pd.notna cells))
    by (apply filter_In; split; [exact Hin | reflexivity]).
  destruct (List.filter pd.notna cells) as [ | c present]; [contradiction | ].
  apply existsb_exists. exists (VStr s). split; [exact Hpresent | reflexivity].
Qed.

Lemma filter_nil_all {A : Type} (f : A -> bool) (l : list A) :
  List.filter f l = [] <-> forall a, In a l -> f a = false.
Proof.
  split.
  - intros H a Ha. destruct (f a) eqn:Hf; [ | reflexivity].
    assert (Hin : In a (List.filter f l)) by (apply filter_In; split; assumption).
    rewrite H in Hin. contradiction.
  - induction l as [ | a l IH]; intros H; [reflexivity | ].
    simpl. rewrite (H a) by (left; reflexivity).
    apply IH. intros b Hb. apply H. right. exact Hb.
Qed.

(** The two accessors are granted exactly when the column holds a text
    cell, or nothing but [None] and NaN. *)
Lemma str_lower_str_spec (cells : list pyval) :
  pd.str_lower_str cells = true <->
  (exists s, In (VStr s) cells) \/ Forall (fun c => c = VNone \/ c = VFloat NaN) cells.
Proof.
  split.
  - unfold pd.str_lower_str, pd.str_accessor, pd.stays_object.
    destruct (List.filter pd.notna cells) as [ | c present] eqn:Hpresent.
    + rewrite andb_true_r, negb_true_iff. intros Hnat. right.
      apply List.Forall_forall. intros v Hv.
      pose proof (proj1 (filter_nil_all _ _) Hpresent v Hv) as Hnull.
      destruct v as [ | [r | sg | ] | n | b | s | t | ]; try discriminate Hnull; auto.
      exfalso. assert (Hex : existsb pd.is_nat cells = true)
        by (apply existsb_exists; exists VNaT; split; [exact Hv | reflexivity]).
      rewrite Hex in Hnat. discriminate Hnat.
    + intros H. apply andb_prop in H. destruct H as [_ H].
      apply existsb_exists in H. destruct H as (v & Hv & Hstr). left.
      destruct v as [ | ? | ? | ? | s | ? | ]; try discriminate Hstr.
      exists s. rewrite <- Hpresent in Hv. apply filter_In in Hv. exact (proj1 Hv).
  - intros [[s Hs] | Hnull]; [exact (str_lower_str_text cells s Hs) | ].
    rewrite List.Forall_forall in Hnull.
    unfold pd.str_lower_str, pd.str_accessor, pd.stays_object.
    assert (Hpresent : List.filter pd.notna cells = []).
    { apply filter_nil_all. intros v Hv. destruct (Hnull v Hv) as [-> | ->]; reflexivity. }
    rewrite Hpresent, andb_true_r, negb_true_iff.
    destruct (existsb pd.is_nat cells) eqn:Hex; [ | reflexivity].
    apply existsb_exists in Hex. destruct Hex as (v & Hv & Hnat).
    destruct (Hnull v Hv) as [-> | ->]; discriminate Hnat.
Qed.

(** A boolean and an integer: cells of several kinds, so the column has
    the accessor; none of them is text, so the lowered column has not. *)
Example cells_without_text :
  pd.str_accessor [VBool true; VInt 1] = true /\
  pd.str_lower_str [VBool true; VInt 1] = false /\
  pd.str_lower_str [VInt 1; VStr "Bhopal"] = true /\
  pd.str_lower_str [VNone; VFloat NaN] = true /\
  pd.str_lower_str [] = true.
Proof. repeat split. Qed.

Lemma row_matches_text (district_name : string) (row : Row) :
  row_matches district_name row = true -> exists s, district_cell row = VStr s.
Proof.
  unfold row_matches, district_key, district_cell, row_get.
  destruct (row !! "District") as [[ | ? | ? | ? | s | ? | ] | ]; try discriminate.
  intros _. exists s. reflexivity.
Qed.

(** A frame with a matching row has text in its district column, so the
    accessors are granted. *)
Lemma matches_accessor (df : list Row) (district_name : string) (row : Row) (rows : list Row) :
  List.filter (row_matches district_name) df = row :: rows ->
  pd.str_lower_str (district_column df) = true.
Proof.
  intros H.
  assert (Hrow : In row (List.filter (row_matches district_name) df))
    by (rewrite H; left; reflexivity).
  apply filter_In in Hrow. destruct Hrow as [Hin Hmatch].
  destruct (row_matches_text _ _ Hmatch) as [s Hs].
  apply (str_lower_str_text _ s). rewrite <- Hs.
  unfold district_column. apply List.in_map. exact Hin.
Qed.

(** The callback on a click that carries a point. *)
Lemma update_dashboard_point (df : list Row) (point : Point) (others : list Point) :
  update_dashboard df (Some {| points := Some (point :: others) |}) =
  if pd.str_lower_str (district_column df) then
    match List.filter (row_matches (location point)) df with
    | [] => Ret (no_data, no_data, no_data, no_data)
    | row :: _ => district_sections (location point) row
    end
  else Raise AttributeError.
Proof. reflexivity. Qed.

Lemma update_dashboard_match (df : list Row) (district_name : string) (others : list Point)
      (row : Row) (rows : list Row) :
  List.filter (row_matches district_name) df = row :: rows ->
  update_dashboard df (Some {| points := Some ({| location := district_name |} :: others) |}) =
  district_sections district_name row.
Proof.
  intros H. rewrite update_dashboard_point. cbn [location].
  rewrite (matches_accessor _ _ _ _ H), H. reflexivity.
Qed.

(** C2: every problem that a report build submits to the optimizer has, as
    its required capacity, the coerced value of the district's generated
    waste column (and at most one problem is submitted). *)
Theorem required_capacity_is_generated
        (solver : pl.LpProblem -> pl.LpSolution) (df : list Row)
        (clickData : option ClickData) (p : pl.LpProblem) :
  In p (solver_calls solver (update_dashboard df clickData)) ->
  exists point others row rows sw_gen,
    clickData = Some {| points := Some (point :: others) |} /\
    List.filter (row_matches (location point)) df = row :: rows /\
    safe (row_get row "Sum of SW_Generation (TPD)" (VInt 0)) = Ret sw_gen /\
    solver_calls solver (update_dashboard df clickData) = [Vehicle.problem sw_gen] /\
    p = Vehicle.problem sw_gen /\
    map (fun c => pl.rhs (fst c)) (pl.constraints p) = [sw_gen].
Proof.
  destruct clickData as [[[[ | point others] | ]] | ]; try (simpl; contradiction).
  rewrite update_dashboard_point.
  destruct (pd.str_lower_str (district_column df)); [ | simpl; contradiction].
  destruct (List.filter (row_matches (location point)) df) as [ | row rows] eqn:Hmatch;
    [simpl; contradiction | ].
  intros Hin.
  destruct (district_sections_calls solver _ row p Hin) as (sw_gen & Hgen & Hcalls & ->).
  exists point, others, row, rows, sw_gen.
  repeat split; assumption || reflexivity.
Qed.

(** ** The build returns on well-formed rows *)

Lemma map_exec_round2_finite (g : Z -> R) (l : list Z) :
  map_exec py_round2 (map (fun Y => PFloat (Fin (g Y))) l) =
  Ret (map (fun Y => Fin (IZR (round_half_even (g Y * 100)) / 100)) l).
Proof.
  induction l as [ | Y l IH]; [reflexivity | ].
  simpl map. simpl map_exec. rewrite IH. reflexivity.
Qed.

Lemma map_exec_round_finite (g : Z -> R) (l : list Z) :
  map_exec py_round (map (fun Y => PFloat (Fin (g Y))) l) =
  Ret (map (fun Y => round_half_even (g Y)) l).
Proof.
  induction l as [ | Y l IH]; [reflexivity | ].
  simpl map. simpl map_exec. rewrite IH. reflexivity.
Qed.

Lemma sections_return (solver : pl.LpProblem -> pl.LpSolution)
      (district_name : string) (row : Row) :
  well_formed_row row -> answers solver ->
  exists out, run solver (district_sections district_name row) = Returned out.
Proof.
  intros Hwf Hsolver.
  assert (Hcol : forall key default, In (key, default) numeric_columns ->
                 exists r, safe (row_get row key default) = Ret (Fin r) /\ 0 <= r)
    by exact Hwf.
  unfold numeric_columns, growth_rate_column in Hcol.
  destruct (Hcol _ _ ltac:(simpl; tauto)) as (census & Hcensus & Hcensus0).
  destruct (Hcol "Sum of SW_Generation (TPD)" _ ltac:(simpl; tauto)) as (g & Hg & Hg0).
  destruct (Hcol "Sum of SW_Processed_ (TPD)" _ ltac:(simpl; tauto)) as (pr & Hpr & Hpr0).
  destruct (Hcol "Sum of SW Collection Gap (in TPD)" _ ltac:(simpl; tauto))
    as (gap & Hgap & Hgap0).
  destruct (Hcol "Sum of Sewage Generation (in MLD)" _ ltac:(simpl; tauto))
    as (sew & Hsew & Hsew0).
  destruct (Hcol "Average of Decadal Grouth Rate in % (During 2001-2011)" _
              ltac:(simpl; tauto)) as (gr & Hgr & Hgr0).
  destruct (Hcol "Sum of Projected Population by 2025" _ ltac:(simpl; tauto))
    as (P & HP & HP0).
  destruct (Hcol "Sum of Estimated PW Generation in TPD" _ ltac:(simpl; tauto))
    as (pw & Hpw & Hpw0).
  destruct (Hcol "Sum of C&D Waste Generation in TPD - 2025" _ ltac:(simpl; tauto))
    as (cd & Hcd & Hcd0).
  destruct (Hcol "Sum of e-waste Generation (TPA)" _ ltac:(simpl; tauto))
    as (ew & Hew & Hew0).
  destruct (waste_processed_percent_finite g pr Hg0 Hpr0) as (percent & Hpercent).
  destruct (forecast_cagr_value census P (fun _ => HP0)) as (cagr & Hcagr & Hbase & _).
  pose proof (pop_forecast_of_cagr _ _ cagr Hcagr Hbase) as Hseries.
  simpl float_mul in Hseries.
  unfold district_sections.
  rewrite Hcensus, Hg, Hpr, Hgap, Hsew, Hgr, HP, Hpw, Hcd, Hew.
  repeat rewrite bind_ret. rewrite Hpercent.
  unfold py_int. repeat rewrite bind_ret. rewrite Hseries, bind_ret.
  rewrite map_exec_round2_finite, bind_ret, map_exec_round_finite.
  unfold py_round2. repeat rewrite bind_ret.
  unfold Vehicle.optimize. rewrite bind_solve. simpl run.
  unfold Vehicle.int_value, pl.value.
  set (sol := solver (Vehicle.problem (Fin g))).
  destruct (sol (pl.name Vehicle.x)) as [b | ] eqn:Hb; [ | exfalso; exact (Hsolver _ _ Hb)].
  destruct (sol (pl.name Vehicle.y)) as [l | ] eqn:Hl; [ | exfalso; exact (Hsolver _ _ Hl)].
  destruct (sol (pl.name Vehicle.z)) as [t | ] eqn:Ht; [ | exfalso; exact (Hsolver _ _ Ht)].
  repeat rewrite bind_ret.
  unfold float_div. rewrite (Reqb_false 365 0) by lra. rewrite bind_ret.
  eexists. reflexivity.
Qed.

(** ** The sample district *)

Lemma bhopal_generated :
  safe (row_get bhopal "Sum of SW_Generation (TPD)" (VInt 0)) = Ret (Fin 100).
Proof. reflexivity. Qed.

Lemma bhopal_well_formed : well_formed_row bhopal.
Proof.
  intros key default Hin. unfold numeric_columns in Hin. simpl in Hin.
  repeat (destruct Hin as [Hin | Hin];
          [injection Hin as <- <-; eexists; split; [reflexivity | lra] | ]).
  contradiction.
Qed.

Lemma five_trucks_answers : answers five_trucks.
Proof.
  intros p var. unfold five_trucks. destruct (String.eqb var "bulk_trucks"); discriminate.
Qed.

Lemma bhopal_matches : List.filter (row_matches " BHOPAL ") [bhopal] = [bhopal].
Proof. vm_compute. reflexivity. Qed.

(** ** The vehicle model and its solutions *)

Lemma Rfloor_IZR (n : Z) : Rfloor (IZR n) = n.
Proof. unfold Rfloor. symmetry. apply Int_part_spec. lra. Qed.

Lemma Rtrunc_IZR (n : Z) : Rtrunc (IZR n) = n.
Proof.
  unfold Rtrunc. destruct (Rle_dec 0 (IZR n)); [apply Rfloor_IZR | ].
  rewrite <- opp_IZR, Rfloor_IZR. lia.
Qed.

(** The feasible points of the model are the covering plans. *)
Lemma vehicle_feasible (W : R) (a : MILP.assignment) :
  MILP.feasible (Vehicle.problem (Fin W)) a <->
  exists b l t : Z,
    a "bulk_trucks" = IZR b /\ a "lcv_trucks" = IZR l /\ a "tricycle_trolleys" = IZR t /\
    (0 <= b)%Z /\ (0 <= l)%Z /\ (0 <= t)%Z /\
    W <= Vehicle.cap_bulk * IZR b + (Vehicle.cap_lcv * IZR l + (Vehicle.cap_tri * IZR t + 0)).
Proof.
  unfold MILP.feasible, MILP.variables, MILP.within_bounds, MILP.integral, MILP.satisfies.
  simpl. rewrite !Forall_cons_iff. simpl.
  split.
  - intros [((Hb0 & b & Hb) & (Hl0 & l & Hl) & (Ht0 & t & Ht) & _) [Hcap _]].
    exists b, l, t. rewrite Hb, Hl, Ht in *.
    repeat split; try reflexivity; try (apply le_IZR; assumption). exact Hcap.
  - intros (b & l & t & Hb & Hl & Ht & Hb0 & Hl0 & Ht0 & Hcap).
    rewrite Hb, Hl, Ht.
    assert (0 <= IZR b) by (apply IZR_le; exact Hb0).
    assert (0 <= IZR l) by (apply IZR_le; exact Hl0).
    assert (0 <= IZR t) by (apply IZR_le; exact Ht0).
    repeat split; eauto; constructor.
Qed.

Lemma vehicle_objective (W : pyfloat) (a : MILP.assignment) :
  MILP.objective_value (Vehicle.problem W) a =
  Vehicle.cost_bulk * a "bulk_trucks" +
  (Vehicle.cost_lcv * a "lcv_trucks" + (Vehicle.cost_tri * a "tricycle_trolleys" + 0)).
Proof. reflexivity. Qed.

Lemma plan_assignment_feasible (W : R) (b l t : Z) :
  Fleet.covering Fleet.deployed W [b; l; t] ->
  MILP.feasible (Vehicle.problem (Fin W)) (plan_assignment b l t).
Proof.
  intros (_ & Hpos & Hcap).
  apply vehicle_feasible. exists b, l, t.
  inversion Hpos as [ | ? ? Hb Hpos1]; subst.
  inversion Hpos1 as [ | ? ? Hl Hpos2]; subst.
  inversion Hpos2 as [ | ? ? Ht _]; subst.
  repeat split; try reflexivity; try assumption.
Qed.

(** Whenever the solver has solved the model for a finite requirement, the
    three counts read back are a minimum-cost covering plan. *)
Lemma solved_model_gives_plan (solver : pl.LpProblem -> pl.LpSolution) (W : R) :
  MILP.solved (Vehicle.problem (Fin W)) (solver (Vehicle.problem (Fin W))) ->
  exists b l t : Z,
    run solver (Vehicle.optimize (Fin W)) = Returned (b, l, t) /\
    Fleet.min_cost_plan Fleet.deployed W [b; l; t].
Proof.
  intros [Hvalues [Hfeasible Hbest]].
  set (sol := solver (Vehicle.problem (Fin W))) in *.
  apply vehicle_feasible in Hfeasible.
  destruct Hfeasible as (b & l & t & Hb & Hl & Ht & Hb0 & Hl0 & Ht0 & Hcap).
  unfold MILP.assignment_of in Hb, Hl, Ht.
  exists b, l, t. split.
  - unfold Vehicle.optimize. simpl run. fold sol.
    unfold Vehicle.int_value, pl.value. simpl pl.name.
    unfold MILP.variables in Hvalues. simpl in Hvalues.
    rewrite !Forall_cons_iff in Hvalues. simpl in Hvalues.
    destruct Hvalues as (Hx & Hy & Hz & _).
    destruct (sol "bulk_trucks") as [vb | ]; [ | contradiction].
    destruct (sol "lcv_trucks") as [vl | ]; [ | contradiction].
    destruct (sol "tricycle_trolleys") as [vt | ]; [ | contradiction].
    subst vb vl vt. simpl. rewrite !Rtrunc_IZR. reflexivity.
  - assert (Hcover : Fleet.covering Fleet.deployed W [b; l; t]).
    { split; [reflexivity | ]. split; [ | exact Hcap].
      repeat constructor; assumption. }
    split; [exact Hcover | ].
    intros counts' Hcover'.
    destruct Hcover' as (Hlen & Hpos' & Hcap').
    destruct counts' as [ | b' [ | l' [ | t' [ | ? ?]]]]; try discriminate Hlen.
    specialize (Hbest (plan_assignment b' l' t')
                  (plan_assignment_feasible W b' l' t' (conj Hlen (conj Hpos' Hcap')))).
    simpl in Hbest. rewrite !vehicle_objective in Hbest.
    unfold MILP.assignment_of in Hbest.
    fold sol in Hbest.
    change (plan_assignment b' l' t' "bulk_trucks") with (IZR b') in Hbest.
    change (plan_assignment b' l' t' "lcv_trucks") with (IZR l') in Hbest.
    change (plan_assignment b' l' t' "tricycle_trolleys") with (IZR t') in Hbest.
    rewrite Hb, Hl, Ht in Hbest.
    exact Hbest.
Qed.

Lemma shown_counts_of_run (solver : pl.LpProblem -> pl.LpSolution) (W : pyfloat) (b l t : Z) :
  run solver (Vehicle.optimize W) = Returned (b, l, t) ->
  Fleet.shown_counts solver W = Some [b; l; t].
Proof. intros H. unfold Fleet.shown_counts. rewrite H. reflexivity. Qed.

(** Every finite requirement has a minimum-cost covering plan. *)
Lemma min_cost_plan_exists (W : R) :
  exists b l t : Z, Fleet.min_cost_plan Fleet.deployed W [b; l; t].
Proof.
  set (cost := fun b l t : Z => (2354 * b + 1926 * l + 913 * t)%Z).
  set (P := fun n : nat =>
              exists b l t : Z,
                Fleet.covering Fleet.deployed W [b; l; t] /\ Z.to_nat (cost b l t) = n).
  assert (Hcost : forall b l t : Z,
             Fleet.total_cost Fleet.deployed [b; l; t] = IZR (cost b l t)).
  { intros b l t. unfold cost. simpl.
    unfold Vehicle.cost_bulk, Vehicle.cost_lcv, Vehicle.cost_tri.
    rewrite !plus_IZR, !mult_IZR. lra. }
  assert (Hsome : exists n, P n).
  { set (b0 := Z.max 0 (up (W / 20))).
    exists (Z.to_nat (cost b0 0 0)%Z), b0, 0%Z, 0%Z.
    split; [ | reflexivity].
    split; [reflexivity | ]. split; [repeat constructor; lia | ].
    simpl. unfold Vehicle.cap_bulk, Vehicle.cap_lcv, Vehicle.cap_tri.
    assert (Hup : W / 20 < IZR (up (W / 20))) by apply archimed.
    assert (Hmax : IZR (up (W / 20)) <= IZR b0) by (apply IZR_le; lia).
    lra. }
  destruct (dec_inh_nat_subset_has_unique_least_element P (fun n => classic (P n)) Hsome)
    as (n0 & ((b & l & t & Hcover & Hn0) & Hleast) & _).
  exists b, l, t. split; [exact Hcover | ].
  intros counts' Hcover'.
  pose proof Hcover' as (Hlen & Hpos' & _).
  destruct counts' as [ | b' [ | l' [ | t' [ | ? ?]]]]; try discriminate Hlen.
  assert (Hle : (n0 <= Z.to_nat (cost b' l' t'))%nat).
  { apply Hleast. exists b', l', t'. split; [exact Hcover' | reflexivity]. }
  destruct Hcover as (_ & Hpos & _).
  assert (Hnonneg : forall x y z : Z,
             Forall (fun n => (0 <= n)%Z) [x; y; z] -> (0 <= cost x y z)%Z).
  { intros x y z H.
    inversion H as [ | ? ? Hx H1]; subst.
    inversion H1 as [ | ? ? Hy H2]; subst.
    inversion H2 as [ | ? ? Hz _]; subst.
    unfold cost. lia. }
  rewrite !Hcost. apply IZR_le.
  pose proof (Hnonneg b l t Hpos). pose proof (Hnonneg b' l' t' Hpos'). lia.
Qed.

(** ** A requirement of zero or less *)

Lemma optimize_calls (solver : pl.LpProblem -> pl.LpSolution) (W : pyfloat) :
  solver_calls solver (Vehicle.optimize W) = [Vehicle.problem W].
Proof.
  unfold Vehicle.optimize. simpl. f_equal.
  apply pure_no_calls. pure_chain.
Qed.

Lemma no_vehicle_solves (W : R) :
  W <= 0 -> MILP.solved (Vehicle.problem (Fin W)) (no_vehicle (Vehicle.problem (Fin W))).
Proof.
  intros HW. split; [ | split].
  - unfold MILP.variables. simpl. repeat constructor; discriminate.
  - apply vehicle_feasible. exists 0%Z, 0%Z, 0%Z.
    unfold MILP.assignment_of, no_vehicle.
    repeat split; try reflexivity; try lia. lra.
  - intros a' Hfeasible. apply vehicle_feasible in Hfeasible.
    destruct Hfeasible as (b & l & t & Hb & Hl & Ht & Hb0 & Hl0 & Ht0 & _).
    simpl. rewrite !vehicle_objective, Hb, Hl, Ht.
    unfold MILP.assignment_of, no_vehicle.
    apply IZR_le in Hb0, Hl0, Ht0.
    unfold Vehicle.cost_bulk, Vehicle.cost_lcv, Vehicle.cost_tri. lra.
Qed.

(** C8, as stated, fails: a requirement of 0 is not a base case.  The model
    is built and submitted like any other, and the counts shown are whatever
    the solver answers. *)
Lemma zero_requirement_reaches_solver :
  Vehicle.optimize (Fin 0) <> Ret (0, 0, 0)%Z /\
  solver_calls five_trucks (Vehicle.optimize (Fin 0)) = [Vehicle.problem (Fin 0)] /\
  Fleet.shown_counts five_trucks (Fin 0) = Some [5; 0; 0]%Z.
Proof.
  split; [discriminate | ]. split; [apply optimize_calls | ].
  unfold Fleet.shown_counts, Vehicle.optimize, Vehicle.int_value, pl.value, five_trucks.
  simpl. change 5 with (IZR 5). change 0 with (IZR 0).
  rewrite !Rtrunc_IZR. reflexivity.
Qed.

(** C8 (amended): when the required capacity is 0 or negative, the model is
    submitted to the solver with that requirement unchanged, and whenever
    the solver returns an optimal point of it the count shown for every
    vehicle type is zero; the cost of that plan is 0.  The callback computes
    no cost. *)
Theorem zero_requirement_plan (solver : pl.LpProblem -> pl.LpSolution) (required : R) :
  required <= 0 ->
  MILP.solved (Vehicle.problem (Fin required)) (solver (Vehicle.problem (Fin required))) ->
  solver_calls solver (Vehicle.optimize (Fin required)) = [Vehicle.problem (Fin required)] /\
  Fleet.shown_counts solver (Fin required) = Some [0; 0; 0]%Z /\
  Fleet.total_cost Fleet.deployed [0; 0; 0]%Z = 0.
Proof.
  intros Hreq Hsolved.
  split; [apply optimize_calls | ].
  split; [ | simpl; lra].
  destruct (solved_model_gives_plan solver required Hsolved)
    as (b & l & t & Hrun & (_ & Hpos & _) & Hbest).
  rewrite (shown_counts_of_run _ _ _ _ _ Hrun).
  specialize (Hbest [0; 0; 0]%Z).
  assert (Hzero : Fleet.covering Fleet.deployed required [0; 0; 0]%Z).
  { split; [reflexivity | ]. split; [repeat constructor; lia | ]. simpl. lra. }
  specialize (Hbest Hzero). simpl in Hbest.
  inversion Hpos as [ | ? ? Hb Hpos1]; subst.
  inversion Hpos1 as [ | ? ? Hl Hpos2]; subst.
  inversion Hpos2 as [ | ? ? Ht _]; subst.
  unfold Vehicle.cost_bulk, Vehicle.cost_lcv, Vehicle.cost_tri in Hbest.
  assert (Hsum : (2354 * b + 1926 * l + 913 * t <= 0)%Z).
  { apply le_IZR. rewrite !plus_IZR, !mult_IZR. lra. }
  assert (b = 0%Z) by lia. assert (l = 0%Z) by lia. assert (t = 0%Z) by lia.
  subst. reflexivity.
Qed.

Lemma zero_requirement_plan_witness :
  solver_calls no_vehicle (Vehicle.optimize (Fin 0)) = [Vehicle.problem (Fin 0)] /\
  Fleet.shown_counts no_vehicle (Fin 0) = Some [0; 0; 0]%Z /\
  Fleet.total_cost Fleet.deployed [0; 0; 0]%Z = 0.
Proof.
  apply (zero_requirement_plan no_vehicle 0); [lra | apply no_vehicle_solves; lra].
Defined.

(** ** The sample district, end to end *)

Lemma bhopal_report :
  exists out,
    run five_trucks (update_dashboard [bhopal] (click_on " BHOPAL ")) = Returned out /\
    solver_calls five_trucks (update_dashboard [bhopal] (click_on " BHOPAL ")) =
    [Vehicle.problem (Fin 100)].
Proof.
  unfold click_on. rewrite (update_dashboard_match _ _ _ _ _ bhopal_matches).
  destruct (sections_return five_trucks " BHOPAL " bhopal
              bhopal_well_formed five_trucks_answers) as (out & Hout).
  exists out. split; [exact Hout | ].
  pose proof (district_sections_shape " BHOPAL " bhopal) as Hshape.
  destruct (district_sections " BHOPAL " bhopal) as [o | e | q k];
    [contradiction | discriminate Hout | ].
  destruct Hshape as (sw_gen & Hgen & -> & Hpure).
  rewrite bhopal_generated in Hgen. injection Hgen as <-.
  simpl. rewrite (pure_no_calls _ _ (Hpure _)). reflexivity.
Qed.

Lemma required_capacity_is_generated_witness :
  exists sw_gen,
    safe (row_get bhopal "Sum of SW_Generation (TPD)" (VInt 0)) = Ret sw_gen /\
    Vehicle.problem (Fin 100) = Vehicle.problem sw_gen.
Proof.
  destruct (required_capacity_is_generated five_trucks [bhopal] (click_on " BHOPAL ")
              (Vehicle.problem (Fin 100)))
    as (point & others & row & rows & sw_gen & Hclick & Hmatch & Hgen & _ & Hp & _).
  - destruct bhopal_report as (out & _ & ->). left. reflexivity.
  - exists sw_gen. split; [ | exact Hp].
    injection Hclick as <- <-. unfold location in Hmatch.
    rewrite bhopal_matches in Hmatch. injection Hmatch as <- <-. exact Hgen.
Defined.

(** The requirement is the generated figure, 100, and neither the value of
    the gap column nor generated minus processed, 40. *)
Example bhopal_capacity_is_not_the_gap :
  map (fun c => pl.rhs (fst c)) (pl.constraints (Vehicle.problem (Fin 100))) = [Fin 100] /\
  Fin 100 <> Fin 40 /\ Fin 100 <> Fin (100 - 60).
Proof.
  split; [reflexivity | ].
  split; intros H; injection H as H; lra.
Qed.

(** ** Looking a district up *)

Lemma lower_char_idempotent (c : ascii) :
  Str.lower_char (Str.lower_char c) = Str.lower_char c.
Proof. destruct c as [[] [] [] [] [] [] [] []]; reflexivity. Qed.

Lemma lower_char_isspace (c : ascii) : Str.isspace (Str.lower_char c) = Str.isspace c.
Proof. destruct c as [[] [] [] [] [] [] [] []]; reflexivity. Qed.

Lemma same_letter_lower (c d : ascii) :
  same_letter c d -> Str.lower_char c = Str.lower_char d.
Proof.
  intros [-> | [[_ ->] | [_ ->]]];
    [reflexivity | symmetry; apply lower_char_idempotent | apply lower_char_idempotent].
Qed.

Lemma same_letters_lower (s t : list ascii) :
  Forall2 same_letter s t -> map Str.lower_char s = map Str.lower_char t.
Proof.
  induction 1 as [ | c d s t Hcd _ IH]; [reflexivity | ].
  simpl. rewrite (same_letter_lower c d Hcd), IH. reflexivity.
Qed.

Lemma all_space_lower (s : list ascii) : all_space s -> all_space (map Str.lower_char s).
Proof.
  unfold all_space. induction 1 as [ | c s Hc _ IH]; simpl; constructor.
  - rewrite lower_char_isspace. exact Hc.
  - exact IH.
Qed.

Lemma all_space_rev (s : list ascii) : all_space s -> all_space (rev s).
Proof.
  unfold all_space. rewrite !List.Forall_forall. intros H c Hc.
  apply H. apply in_rev. exact Hc.
Qed.

Lemma lstrip_chars_padding (ws s : list ascii) :
  all_space ws -> Str.lstrip_chars (ws ++ s)%list = Str.lstrip_chars s.
Proof.
  induction 1 as [ | c ws Hc _ IH]; [reflexivity | ].
  simpl. rewrite Hc. exact IH.
Qed.

Lemma lstrip_chars_all_space (ws : list ascii) : all_space ws -> Str.lstrip_chars ws = [].
Proof.
  intros H. rewrite <- (app_nil_r ws). rewrite lstrip_chars_padding by exact H. reflexivity.
Qed.

Lemma rstrip_chars_padding (s ws : list ascii) :
  all_space ws ->
  Str.lstrip_chars (rev (Str.lstrip_chars (s ++ ws)%list)) =
  Str.lstrip_chars (rev (Str.lstrip_chars s)).
Proof.
  intros Hws. induction s as [ | c s IH].
  - simpl. rewrite (lstrip_chars_all_space ws Hws). reflexivity.
  - simpl. destruct (Str.isspace c); [exact IH | ].
    change (c :: (s ++ ws)%list) with ((c :: s) ++ ws)%list.
    rewrite rev_app_distr.
    apply lstrip_chars_padding. apply all_space_rev. exact Hws.
Qed.

Lemma strip_chars_padding (l m r : list ascii) :
  all_space l -> all_space r ->
  Str.strip_chars (l ++ m ++ r)%list = Str.strip_chars m.
Proof.
  intros Hl Hr. unfold Str.strip_chars.
  rewrite lstrip_chars_padding by exact Hl.
  rewrite rstrip_chars_padding by exact Hr. reflexivity.
Qed.

(** Names that differ only in case and padding have one normal form. *)
Lemma normal_form_agrees (a b : string) :
  differ_in_case_or_padding a b ->
  Str.strip (Str.lower a) = Str.strip (Str.lower b).
Proof.
  intros (la & ca & ra & lb & cb & rb & Ha & Hb & Hla & Hra & Hlb & Hrb & Hcore).
  unfold Str.strip, Str.lower.
  rewrite !list_ascii_of_string_of_list_ascii, Ha, Hb, !map_app.
  rewrite !strip_chars_padding by (apply all_space_lower; assumption).
  rewrite (same_letters_lower ca cb Hcore). reflexivity.
Qed.

Lemma row_matches_spec (district_name : string) (row : Row) :
  row_matches district_name row = true <->
  exists name, district_of row = Some name /\
               Str.strip (Str.lower name) = Str.strip (Str.lower district_name).
Proof.
  unfold row_matches, district_key, district_of.
  destruct (row !! "District") as [[ | ? | ? | ? | s | ? | ] | ];
    try (split; [discriminate | intros (name & H & _); discriminate]).
  rewrite String.eqb_eq. split.
  - intros H. exists s. split; [reflexivity | exact H].
  - intros (name & H & Heq). injection H as <-. exact Heq.
Qed.

Lemma filter_none {A : Type} (f : A -> bool) (l : list A) :
  (forall a, In a l -> f a = false) -> List.filter f l = [].
Proof.
  induction l as [ | a l IH]; intros H; [reflexivity | ].
  simpl. rewrite (H a) by (left; reflexivity).
  apply IH. intros b Hb. apply H. right. exact Hb.
Qed.

Lemma filter_some {A : Type} (f : A -> bool) (l : list A) (a : A) :
  In a l -> f a = true ->
  exists found rest, List.filter f l = found :: rest /\ In a (found :: rest).
Proof.
  intros Hin Hf.
  assert (H : In a (List.filter f l)) by (apply filter_In; split; assumption).
  destruct (List.filter f l) as [ | found rest]; [contradiction | ].
  exists found, rest. split; [reflexivity | exact H].
Qed.

(** A build that returns has produced the four sections of the district,
    never a message. *)
Lemma sections_are_sections (solver : pl.LpProblem -> pl.LpSolution)
      (district_name : string) (row : Row) (out : Outputs) :
  run solver (district_sections district_name row) = Returned out ->
  exists census chart kpis percent bars pie cards waste,
    out = (DistrictCard district_name, PopSection census chart kpis,
           WasteCharSection percent bars pie cards, WasteCompSection waste).
Proof.
  unfold district_sections.
  repeat step_run.
  unfold Vehicle.optimize. rewrite bind_solve, run_solve.
  step_run.
  match goal with counts : (Z * Z * Z)%type |- _ => destruct counts as [[bulk_opt lcv_opt] tri_opt] end.
  repeat step_run.
  simpl. intros H. injection H as <-. repeat eexists.
Qed.

(** C9, as stated, fails: when the district column holds no text (here the
    number 123, what line 38 leaves of a sheet whose first column holds a
    blank text cell and that number), no record matches the clicked
    identifier, and the build raises AttributeError instead of giving the
    "no data" state. *)
Lemma lookup_raises_without_text :
  List.filter (row_matches "Bhopal") [ ({[ "District" := VInt 123 ]} : Row) ] = [] /\
  update_dashboard [ ({[ "District" := VInt 123 ]} : Row) ] (click_on "Bhopal") =
  Raise AttributeError.
Proof. split; vm_compute; reflexivity. Qed.

Lemma district_of_cell (row : Row) (s : string) :
  district_of row = Some s <-> district_cell row = VStr s.
Proof.
  unfold district_of, district_cell, row_get.
  destruct (row !! "District") as [[ | ? | ? | ? | s' | ? | ] | ];
    split; intros H; try discriminate H; injection H as ->; reflexivity.
Qed.

(** C9 (amended): the [.str] accessors of the lookup are granted exactly
    when the district column holds a text cell, or nothing but [None] and
    NaN (in particular when there is no record).  When they are not, every
    click on a district raises AttributeError.  When they are and no
    record's name equals the clicked identifier after lowering the case and
    trimming whitespace, the build returns the "no data" message in all four
    outputs (which is neither the placeholder nor a report).  When the
    identifier differs from a record's name only in letter case or in
    leading or trailing whitespace, the accessors are granted, that record
    is among the matches and the build is the report of the first match. *)
Theorem district_lookup (df : list Row) (district_name : string) (others : list Point) :
  (pd.str_lower_str (district_column df) = true <->
   (exists row s, In row df /\ district_of row = Some s) \/
   Forall (fun row => district_cell row = VNone \/ district_cell row = VFloat NaN) df) /\
  (pd.str_lower_str (district_column df) = false ->
   update_dashboard df (Some {| points := Some ({| location := district_name |} :: others) |}) =
   Raise AttributeError) /\
  (pd.str_lower_str (district_column df) = true ->
   (forall row name,
       In row df -> district_of row = Some name ->
       Str.strip (Str.lower name) <> Str.strip (Str.lower district_name)) ->
   update_dashboard df (Some {| points := Some ({| location := district_name |} :: others) |}) =
   Ret (no_data, no_data, no_data, no_data)) /\
  no_data <> placeholder /\
  (forall row name,
      In row df -> district_of row = Some name ->
      differ_in_case_or_padding name district_name ->
      pd.str_lower_str (district_column df) = true /\
      exists found rest,
        List.filter (row_matches district_name) df = found :: rest /\
        In row (found :: rest) /\
        update_dashboard df
          (Some {| points := Some ({| location := district_name |} :: others) |}) =
        district_sections district_name found /\
        forall solver out,
          run solver
            (update_dashboard df
               (Some {| points := Some ({| location := district_name |} :: others) |})) =
          Returned out ->
          fst (fst (fst out)) = DistrictCard district_name).
Proof.
  split; [ | split; [ | split; [ | split; [discriminate | ]]]].
  - rewrite str_lower_str_spec. unfold district_column.
    rewrite List.Forall_map. split.
    + intros [[s Hs] | Hnull]; [left | right; exact Hnull].
      apply List.in_map_iff in Hs. destruct Hs as (row & Hcell & Hrow).
      exists row, s. split; [exact Hrow | apply district_of_cell; exact Hcell].
    + intros [(row & s & Hrow & Hs) | Hnull]; [left | right; exact Hnull].
      exists s. apply List.in_map_iff. exists row.
      split; [apply district_of_cell; exact Hs | exact Hrow].
  - intros Hno. rewrite update_dashboard_point, Hno. reflexivity.
  - intros Hstr Hnone. rewrite update_dashboard_point, Hstr. cbn [location].
    rewrite filter_none; [reflexivity | ].
    intros row Hrow.
    destruct (row_matches district_name row) eqn:Hmatch; [ | reflexivity].
    apply row_matches_spec in Hmatch. destruct Hmatch as (name & Hname & Heq).
    exfalso. exact (Hnone row name Hrow Hname Heq).
  - intros row name Hrow Hname Hdiffer.
    assert (Hmatch : row_matches district_name row = true).
    { apply row_matches_spec. exists name. split; [exact Hname | ].
      apply normal_form_agrees. exact Hdiffer. }
    destruct (filter_some _ df row Hrow Hmatch) as (found & rest & Hfilter & Hin).
    split; [exact (matches_accessor _ _ _ _ Hfilter) | ].
    exists found, rest.
    split; [exact Hfilter | ]. split; [exact Hin | ].
    rewrite (update_dashboard_match _ _ others _ _ Hfilter).
    split; [reflexivity | ].
    intros solver out Hout.
    destruct (sections_are_sections solver district_name found out Hout)
      as (census & chart & kpis & percent & bars & pie & cards & waste & ->).
    reflexivity.
Qed.

Lemma bhopal_padding : differ_in_case_or_padding "Bhopal" " BHOPAL ".
Proof.
  exists [], (list_ascii_of_string "Bhopal"), [],
         (list_ascii_of_string " "), (list_ascii_of_string "BHOPAL"),
         (list_ascii_of_string " ").
  split; [reflexivity | ]. split; [reflexivity | ].
  repeat (split; [repeat constructor | ]).
  simpl. repeat constructor; (left; reflexivity) || (right; right; split; reflexivity).
Qed.

Lemma district_lookup_witness :
  update_dashboard [ ({[ "District" := VBool true ]} : Row) ] (click_on "Indore") =
  Raise AttributeError /\
  update_dashboard [bhopal] (click_on "Indore") = Ret (no_data, no_data, no_data, no_data) /\
  exists found rest, List.filter (row_matches " BHOPAL ") [bhopal] = found :: rest /\
                     In bhopal (found :: rest).
Proof.
  split; [ | split].
  - apply (proj1 (proj2 (district_lookup [ ({[ "District" := VBool true ]} : Row) ]
                                 "Indore" []))).
    vm_compute. reflexivity.
  - apply (proj1 (proj2 (proj2 (district_lookup [bhopal] "Indore" [])))).
    + vm_compute. reflexivity.
    + intros row name [<- | []] Hname. injection Hname as <-.
      vm_compute. discriminate.
  - destruct (proj2 (proj2 (proj2 (proj2 (district_lookup [bhopal] " BHOPAL " []))))
                bhopal "Bhopal")
      as (_ & found & rest & Hfilter & Hin & _).
    + left. reflexivity.
    + reflexivity.
    + exact bhopal_padding.
    + exists found, rest. split; assumption.
Defined.

(** ** The growth-rate column *)











(** ** The guards of the callback *)

Example no_click (df : list Row) :
  update_dashboard df None = Ret (placeholder, placeholder, placeholder, placeholder).
Proof. reflexivity. Qed.

Example click_without_points (df : list Row) :
  update_dashboard df (Some {| points := None |}) =
  Ret (placeholder, placeholder, placeholder, placeholder).
Proof. reflexivity. Qed.

Example click_with_no_point (df : list Row) :
  update_dashboard df (Some {| points := Some [] |}) = Raise IndexError.
Proof. reflexivity. Qed.

(** ** Rounding and truncation on sample values *)

Lemma Rfloor_between (r : R) (n : Z) : IZR n <= r < IZR n + 1 -> Rfloor r = n.
Proof. intros H. unfold Rfloor. symmetry. apply Int_part_spec. lra. Qed.

Example round_half_even_down : round_half_even (5 / 2) = 2%Z.
Proof.
  unfold round_half_even. rewrite (Rfloor_between (5 / 2) 2) by lra.
  destruct (Rlt_dec (5 / 2 - 2) (1 / 2)) as [H | _]; [lra | ].
  destruct (Rlt_dec (1 / 2) (5 / 2 - 2)) as [H | _]; [lra | reflexivity].
Qed.

Example round_half_even_up : round_half_even (7 / 2) = 4%Z.
Proof.
  unfold round_half_even. rewrite (Rfloor_between (7 / 2) 3) by lra.
  destruct (Rlt_dec (7 / 2 - 3) (1 / 2)) as [H | _]; [lra | ].
  destruct (Rlt_dec (1 / 2) (7 / 2 - 3)) as [H | _]; [lra | reflexivity].
Qed.

Example trunc_towards_zero : Rtrunc (- (5 / 2)) = (-2)%Z /\ Rtrunc (5 / 2) = 2%Z.
Proof.
  unfold Rtrunc. split.
  - destruct (Rle_dec 0 (- (5 / 2))) as [H | _]; [lra | ].
    rewrite (Rfloor_between (- - (5 / 2)) 2) by lra. reflexivity.
  - destruct (Rle_dec 0 (5 / 2)) as [_ | H]; [ | lra].
    apply Rfloor_between. lra.
Qed.

(** * Further properties of the callbacks *)

(** ** Which row is reported *)

(** X1: when several rows match the clicked identifier, the report is
    built from the first of them; the rows before it that do not match and
    every row after it are irrelevant. *)
Theorem first_match_decides (before after : list Row) (row : Row)
        (district_name : string) (others : list Point) :
  (forall r, In r before -> row_matches district_name r = false) ->
  row_matches district_name row = true ->
  update_dashboard (before ++ row :: after)%list
    (Some {| points := Some ({| location := district_name |} :: others) |}) =
  district_sections district_name row.
Proof.
  intros Hbefore Hrow.
  apply (update_dashboard_match _ _ _ _ (List.filter (row_matches district_name) after)).
  rewrite List.filter_app, (filter_none _ before Hbefore).
  simpl. rewrite Hrow. reflexivity.
Qed.

Lemma first_match_decides_witness :
  update_dashboard ([∅] ++ bhopal :: [bhopal_text_growth])%list (click_on "bhopal") =
  district_sections "bhopal" bhopal.
Proof.
  apply (first_match_decides [∅] [bhopal_text_growth] bhopal "bhopal" []).
  - intros r [<- | []]. reflexivity.
  - vm_compute. reflexivity.
Defined.

Lemma row_matches_normal_form (a b : string) (row : Row) :
  differ_in_case_or_padding a b -> row_matches a row = row_matches b row.
Proof.
  intros H. unfold row_matches.
  rewrite (normal_form_agrees a b H). reflexivity.
Qed.

Ltac step_both := step_with ltac:(try reflexivity).

(** The clicked identifier reaches the report only through the district
    card. *)
Lemma sections_card_only (solver : pl.LpProblem -> pl.LpSolution) (a b : string) (row : Row) :
  run solver (district_sections a row) = with_card a (run solver (district_sections b row)).
Proof.
  unfold district_sections.
  repeat step_both.
  unfold Vehicle.optimize. rewrite !bind_solve, !run_solve.
  step_both.
  match goal with counts : (Z * Z * Z)%type |- _ => destruct counts as [[bulk_opt lcv_opt] tri_opt] end.
  repeat step_both.
  reflexivity.
Qed.

(** X2: two identifiers that differ only in letter case or in leading or
    trailing whitespace select the same rows, and the builds for them have
    the same outcome except for the district card, which shows the
    identifier as it was clicked. *)
Theorem lookup_by_normal_form (df : list Row) (a b : string) :
  differ_in_case_or_padding a b ->
  List.filter (row_matches a) df = List.filter (row_matches b) df /\
  forall solver,
    run solver (update_dashboard df (click_on a)) =
    with_card a (run solver (update_dashboard df (click_on b))).
Proof.
  intros H.
  assert (Hfilter : List.filter (row_matches a) df = List.filter (row_matches b) df).
  { apply List.filter_ext. intros row. apply row_matches_normal_form. exact H. }
  split; [exact Hfilter | ].
  intros solver. unfold click_on. rewrite !update_dashboard_point. cbn [location].
  destruct (pd.str_lower_str (district_column df)); [ | reflexivity].
  rewrite Hfilter.
  destruct (List.filter (row_matches b) df) as [ | row rows]; [reflexivity | ].
  apply sections_card_only.
Qed.

Lemma lookup_by_normal_form_witness :
  List.filter (row_matches "Bhopal") [bhopal] = List.filter (row_matches " BHOPAL ") [bhopal].
Proof.
  apply (lookup_by_normal_form [bhopal] "Bhopal" " BHOPAL "). exact bhopal_padding.
Defined.

(** ** The guarded divisions *)

Lemma float_gt_zero (a : pyfloat) :
  float_gt a (Fin 0) = true -> (exists r, a = Fin r /\ 0 < r) \/ a = Inf false.
Proof.
  unfold float_gt, float_lt, Rltb.
  destruct a as [r | [ | ] | ]; try discriminate.
  - destruct (Rlt_dec 0 r); [ | discriminate]. intros _. left. exists r. split; [reflexivity | assumption].
  - intros _. right. reflexivity.
Qed.

Lemma float_div_by_positive (a b : pyfloat) :
  float_gt b (Fin 0) = true -> exists q, float_div a b = Ret q.
Proof.
  intros H. destruct (float_gt_zero b H) as [(r & -> & Hr) | ->]; unfold float_div.
  - rewrite Reqb_false by lra. destruct a; eexists; reflexivity.
  - destruct a; eexists; reflexivity.
Qed.

Lemma waste_processed_percent_returns (sw_gen sw_proc : pyfloat) :
  exists percent, waste_processed_percent sw_gen sw_proc = Ret percent.
Proof.
  unfold waste_processed_percent.
  destruct (float_gt sw_gen (Fin 0)) eqn:Hgen.
  - destruct (float_div_by_positive sw_proc sw_gen Hgen) as (q & ->).
    rewrite !bind_ret. eexists. reflexivity.
  - rewrite bind_ret. eexists. reflexivity.
Qed.

(** X3: the processed percentage is computed without raising for every
    pair of floats, zero divisor, infinities and NaN included; it is 0
    whenever the generated figure is not greater than 0, and it is never
    greater than 100. *)
Theorem processed_percent_is_guarded (sw_gen sw_proc : pyfloat) :
  exists percent,
    waste_processed_percent sw_gen sw_proc = Ret percent /\
    float_gt percent (Fin 100) = false /\
    (float_gt sw_gen (Fin 0) = false -> percent = Fin 0).
Proof.
  unfold waste_processed_percent.
  assert (Hcap : forall x, float_gt (if float_gt x (Fin 100) then Fin 100 else x) (Fin 100) = false).
  { intros x. destruct (float_gt x (Fin 100)) eqn:Hx; [ | exact Hx].
    unfold float_gt, float_lt. apply Rltb_false. lra. }
  destruct (float_gt sw_gen (Fin 0)) eqn:Hgen.
  - destruct (float_div_by_positive sw_proc sw_gen Hgen) as (q & ->).
    rewrite !bind_ret. eexists. split; [reflexivity | ].
    split; [apply Hcap | discriminate].
  - rewrite bind_ret. eexists. split; [reflexivity | ].
    split; [apply Hcap | ].
    intros _. unfold float_gt, float_lt. rewrite Rltb_false by lra. reflexivity.
Qed.

Lemma map_exec_total {A B : Type} (f : A -> Exec B) (l : list A) :
  (forall a, In a l -> exists b, f a = Ret b) ->
  exists bs, map_exec f l = Ret bs /\ length bs = length l.
Proof.
  induction l as [ | a l IH]; intros H.
  - exists []. split; reflexivity.
  - destruct (H a (or_introl eq_refl)) as (b & Hb).
    destruct IH as (bs & Hbs & Hlen); [intros c Hc; apply H; right; exact Hc | ].
    exists (b :: bs). simpl. rewrite Hb, bind_ret, Hbs, bind_ret.
    split; [reflexivity | rewrite Hlen; reflexivity].
Qed.

(** A float raised to a non-negative exponent never divides by zero. *)
Lemma float_pow_returns (v : pyfloat) (w : R) :
  0 <= w -> exists r, float_pow v (Fin w) = Ret r.
Proof.
  intros Hw. unfold float_pow. rewrite (Rltb_false w 0 Hw).
  destruct (Reqb w 0); [eexists; reflexivity | ].
  destruct v as [v0 | s | ].
  - destruct (Reqb v0 0); [eexists; reflexivity | ].
    destruct (Rltb v0 0).
    + destruct (is_integer w); [ | eexists; reflexivity].
      destruct (Reqb (- v0) 1); eexists; reflexivity.
    + destruct (Reqb v0 1); eexists; reflexivity.
  - destruct (Rltb 0 w); eexists; reflexivity.
  - eexists. reflexivity.
Qed.

Lemma forecast_cagr_returns (census_pop pop_2025 : pyfloat) :
  exists cagr, forecast_cagr census_pop pop_2025 = Ret cagr.
Proof.
  unfold forecast_cagr.
  destruct (float_gt census_pop (Fin 0)) eqn:Hcensus; [ | eexists; reflexivity].
  destruct (float_div_by_positive pop_2025 census_pop Hcensus) as (q & ->).
  rewrite bind_ret.
  destruct (float_pow_returns q (1 / IZR (2025 - 2011))) as (r & ->).
  - change (IZR (2025 - 2011)) with 14. lra.
  - rewrite bind_ret. eexists. reflexivity.
Qed.

Lemma pop_forecast_returns (census_pop pop_2025 : pyfloat) :
  exists values,
    pop_forecast census_pop pop_2025 = Ret values /\
    length values = length years /\ length values = 6%nat.
Proof.
  unfold pop_forecast.
  destruct (forecast_cagr_returns census_pop pop_2025) as (cagr & ->).
  rewrite bind_ret.
  destruct (map_exec_total
              (fun year =>
                 g <- num_pow_int (num_radd (Fin 1) cagr) (year - 2025) ;;
                 Ret (num_rmul pop_2025 g)) years) as (values & Hvalues & Hlen).
  - intros year Hyear. unfold num_pow_int.
    destruct (num_radd (Fin 1) cagr) as [base | ]; [ | eexists; reflexivity].
    destruct (float_pow_returns base (IZR (year - 2025))) as (g & ->).
    + apply IZR_le. apply years_from_base. exact Hyear.
    + eexists. reflexivity.
  - exists values. split; [exact Hvalues | ]. split; [exact Hlen | rewrite Hlen; reflexivity].
Qed.

(** X4: the population forecast is computed without raising for every pair
    of floats (zero, negative, infinite or NaN census included): it always
    yields six values, one for each year of 2025..2030. *)
Theorem pop_forecast_is_total (census_pop pop_2025 : pyfloat) :
  exists values,
    pop_forecast census_pop pop_2025 = Ret values /\
    length values = length years /\ length values = 6%nat.
Proof. exact (pop_forecast_returns census_pop pop_2025). Qed.

(** ** Reading the counts back *)

Lemma Rtrunc_nonneg (v : R) :
  0 <= v -> (0 <= Rtrunc v)%Z /\ IZR (Rtrunc v) <= v < IZR (Rtrunc v) + 1.
Proof.
  intros Hv. unfold Rtrunc, Rfloor.
  destruct (Rle_dec 0 v) as [_ | H]; [ | contradiction].
  destruct (base_Int_part v) as [Hle Hgt].
  split; [ | lra].
  apply le_IZR. apply Rnot_lt_le. intros Hneg.
  assert (Hstep : IZR (Int_part v) <= -1).
  { change (-1) with (IZR (-1)). apply IZR_le.
    assert (Int_part v < 0)%Z by (apply lt_IZR; exact Hneg). lia. }
  lra.
Qed.

(** X8: the counts shown are the solver's values truncated towards zero,
    never rounded: for non-negative values each count is the integer part of
    its value, so the capacity of the plan shown is at most the capacity of
    the point the solver returned. *)
Theorem shown_counts_are_truncated (solver : pl.LpProblem -> pl.LpSolution) (W : pyfloat)
        (vb vl vt : R) :
  solver (Vehicle.problem W) "bulk_trucks" = Some vb ->
  solver (Vehicle.problem W) "lcv_trucks" = Some vl ->
  solver (Vehicle.problem W) "tricycle_trolleys" = Some vt ->
  0 <= vb -> 0 <= vl -> 0 <= vt ->
  exists b l t : Z,
    Fleet.shown_counts solver W = Some [b; l; t] /\
    (0 <= b)%Z /\ (0 <= l)%Z /\ (0 <= t)%Z /\
    IZR b <= vb < IZR b + 1 /\ IZR l <= vl < IZR l + 1 /\ IZR t <= vt < IZR t + 1 /\
    Fleet.total_capacity Fleet.deployed [b; l; t] <=
    Vehicle.cap_bulk * vb + Vehicle.cap_lcv * vl + Vehicle.cap_tri * vt.
Proof.
  intros Hb Hl Ht Hvb Hvl Hvt.
  destruct (Rtrunc_nonneg vb Hvb) as (Hb0 & Hb1).
  destruct (Rtrunc_nonneg vl Hvl) as (Hl0 & Hl1).
  destruct (Rtrunc_nonneg vt Hvt) as (Ht0 & Ht1).
  exists (Rtrunc vb), (Rtrunc vl), (Rtrunc vt).
  split.
  { unfold Fleet.shown_counts, Vehicle.optimize. rewrite run_solve.
    unfold Vehicle.int_value, pl.value. cbn [pl.name Vehicle.x Vehicle.y Vehicle.z].
    rewrite Hb, Hl, Ht. reflexivity. }
  repeat (split; [assumption | ]).
  simpl. unfold Vehicle.cap_bulk, Vehicle.cap_lcv, Vehicle.cap_tri. lra.
Qed.

Lemma shown_counts_are_truncated_witness :
  exists b l t : Z,
    Fleet.shown_counts five_trucks (Fin 100) = Some [b; l; t] /\ IZR b <= 5 < IZR b + 1.
Proof.
  destruct (shown_counts_are_truncated five_trucks (Fin 100) 5 0 0)
    as (b & l & t & Hshown & _ & _ & _ & Hb & _); try reflexivity; try lra.
  exists b, l, t. split; assumption.
Defined.

(** ** The collapse callback *)

Lemma before_dot_prefix (id rest : string) :
  dotless id -> Toggle.before_dot (id ++ String "." rest) = id.
Proof.
  unfold dotless. induction id as [ | c id IH]; intros Hid.
  - reflexivity.
  - simpl in *. destruct (Ascii.eqb_spec c ".") as [-> | _].
    + exfalso. apply Hid. left. reflexivity.
    + rewrite IH; [reflexivity | ]. intros H. apply Hid. right. exact H.
Qed.

(** X9: whatever triggered the callback and whatever the click counts and
    the previous states are, at most one of the three sections is open
    afterwards. *)
Theorem at_most_one_section_open (triggered : list Toggle.Trigger)
        (n_pop n_waste_char n_waste_comp : Z)
        (is_open_pop is_open_waste_char is_open_waste_comp : bool) :
  match Toggle.toggle_sections triggered n_pop n_waste_char n_waste_comp
          is_open_pop is_open_waste_char is_open_waste_comp with
  | (pop, waste_char, waste_comp) =>
      pop && waste_char = false /\ pop && waste_comp = false /\
      waste_char && waste_comp = false
  end.
Proof.
  unfold Toggle.toggle_sections.
  destruct triggered as [ | first more]; [repeat split | ].
  destruct (String.eqb_spec (Toggle.before_dot (Toggle.prop_id first)) "toggle-pop") as [-> | _];
    [repeat split | ].
  destruct (String.eqb_spec (Toggle.before_dot (Toggle.prop_id first)) "toggle-waste-char")
    as [-> | _]; repeat split.
Qed.

(** X10: a trigger whose property id is [id.property], with no full stop in
    [id], opens the section whose button is [id] and closes the other two,
    whether or not that section was open before: the callback opens, it does
    not toggle.  An id that is none of the three buttons closes all three. *)
Theorem button_opens_its_section (id property : string) (more : list Toggle.Trigger)
        (n_pop n_waste_char n_waste_comp : Z)
        (is_open_pop is_open_waste_char is_open_waste_comp : bool) :
  dotless id ->
  Toggle.toggle_sections
    ({| Toggle.prop_id := id ++ String "." property |} :: more)
    n_pop n_waste_char n_waste_comp is_open_pop is_open_waste_char is_open_waste_comp =
  (String.eqb id "toggle-pop", String.eqb id "toggle-waste-char",
   String.eqb id "toggle-waste-comp").
Proof.
  intros Hid. unfold Toggle.toggle_sections. cbn [Toggle.prop_id].
  rewrite (before_dot_prefix id property Hid). reflexivity.
Qed.

Lemma button_opens_its_section_witness :
  Toggle.toggle_sections [ {| Toggle.prop_id := "toggle-pop.n_clicks" |} ] 3 0 0 true false false =
  (true, false, false).
Proof.
  apply (button_opens_its_section "toggle-pop" "n_clicks" [] 3 0 0 true false false).
  unfold dotless. simpl. intros H.
  repeat (destruct H as [H | H]; [discriminate H | ]). exact H.
Defined.

(** ** The base year of the forecast *)

Lemma float_pow_zero (v : pyfloat) : float_pow v (Fin 0) = Ret (PFloat (Fin 1)).
Proof. unfold float_pow. rewrite Reqb_true by reflexivity. reflexivity. Qed.

Lemma map_exec_head {A B : Type} (f : A -> Exec B) (a : A) (l : list A) (b : B) (bs : list B) :
  map_exec f (a :: l) = Ret (b :: bs) -> f a = Ret b.
Proof.
  simpl. destruct (f a) as [b' | e | p k]; simpl; try discriminate.
  destruct (map_exec f l) as [bs' | e | p k]; simpl; try discriminate.
  intros H. injection H as <- _. reflexivity.
Qed.

(** X15: the first of the six forecast values, the one for 2025, is the
    projected 2025 population itself, whatever the census figure is (zero,
    negative, infinite, NaN): exactly so whenever the growth rate is a
    float, and in particular whenever the census figure is not positive.
    The only other case is a complex growth rate, which makes the value
    complex. *)
Theorem base_year_is_identity (census_pop pop_2025 : pyfloat) :
  exists value later,
    pop_forecast census_pop pop_2025 = Ret (value :: later) /\
    length later = 5%nat /\
    (value = PFloat pop_2025 \/ value = PComplex) /\
    (forall g, forecast_cagr census_pop pop_2025 = Ret (PFloat g) -> value = PFloat pop_2025) /\
    (float_gt census_pop (Fin 0) = false -> value = PFloat pop_2025).
Proof.
  destruct (pop_forecast_returns census_pop pop_2025) as (values & Hvalues & _ & Hsix).
  destruct values as [ | value later]; [discriminate Hsix | ].
  exists value, later. split; [exact Hvalues | ].
  split; [injection Hsix as Hsix; exact Hsix | ].
  unfold pop_forecast in Hvalues.
  destruct (forecast_cagr_returns census_pop pop_2025) as (cagr & Hcagr).
  rewrite Hcagr, bind_ret in Hvalues. unfold years in Hvalues.
  apply map_exec_head in Hvalues.
  change (2025 - 2025)%Z with 0%Z in Hvalues.
  assert (Hfloat : forall g, cagr = PFloat g -> value = PFloat pop_2025).
  { intros g ->. unfold num_radd, num_pow_int in Hvalues.
    rewrite float_pow_zero, bind_ret in Hvalues. injection Hvalues as <-.
    unfold num_rmul. rewrite float_mul_1_r. reflexivity. }
  split; [ | split].
  - destruct cagr as [g | ]; [left; exact (Hfloat g eq_refl) | right].
    unfold num_radd, num_pow_int in Hvalues. rewrite bind_ret in Hvalues.
    injection Hvalues as <-. reflexivity.
  - intros g Hg. rewrite Hg in Hcagr. injection Hcagr as <-. exact (Hfloat g eq_refl).
  - intros Hcensus. rewrite (forecast_cagr_no_census _ _ Hcensus) in Hcagr.
    injection Hcagr as <-. exact (Hfloat (Fin 0) eq_refl).
Qed.

(** ** The model that is submitted *)


(** X17: over the reals, the submitted model has an optimum for every
    finite requirement: a minimum-cost covering fleet exists, and the
    assignment that holds its counts is a solution of the model.  The model
    is never infeasible and never unbounded. *)
Theorem model_has_an_optimum (W : R) :
  exists b l t : Z,
    Fleet.min_cost_plan Fleet.deployed W [b; l; t] /\
    MILP.solved (Vehicle.problem (Fin W)) (fun var => Some (plan_assignment b l t var)).
Proof.
  destruct (min_cost_plan_exists W) as (b & l & t & Hcover & Hbest).
  exists b, l, t. split; [split; assumption | ].
  split; [ | split].
  - unfold MILP.variables. simpl. repeat constructor; discriminate.
  - exact (plan_assignment_feasible W b l t Hcover).
  - intros a' Hfeasible. apply vehicle_feasible in Hfeasible.
    destruct Hfeasible as (b' & l' & t' & Hb & Hl & Ht & Hb0 & Hl0 & Ht0 & Hcap).
    simpl MILP.no_worse. rewrite !vehicle_objective, Hb, Hl, Ht.
    apply (Hbest [b'; l'; t']).
    split; [reflexivity | ]. split; [repeat constructor; assumption | exact Hcap].
Qed.
